(** * Tilt: the Cmd reconciler and the FileWatch manifest subscriber

    Module [Cmd] is a model of the Cmd reconciler. The controller that the
    test-suite of package [cmd] exercises is described by the specification
    only, so its definitions follow the specification (§3 to §5), and
    module [CmdTests] holds the objects the tests build.

    Module [Fswatch] embeds [internal/engine/fswatch/manifest_subscriber.go]:
    [OnChange], [SpecsFromState], [specForTarget], [addGlobalIgnoresToSpec]
    and [globalIgnores], with Go maps as [gmap]s and the dispatched actions
    collected in a list.

    The facts about both follow the definitions: [FswatchFacts], [CmdFacts],
    and the scenarios that instantiate them. *)

From Stdlib Require Import ZArith Lia.
From stdpp Require Import gmap strings list fin_maps pretty.

Local Open Scope Z_scope.


(** Timestamps ([metav1.Time], [metav1.MicroTime]) are integers; the zero
    time is [0]. *)
Abbreviation Time := Z.

(* ===================================================================== *)
(** * The Cmd reconciler                                                  *)
(* ===================================================================== *)

Module Cmd.

(** ** The command resource *)

(** [StartOnSpec], as the tests build it: button names and [StartAfter]. *)
Record StartOnSpec := mkStartOnSpec {
  StartOnUIButtons : list string;
  StartAfter : Time;
}.

(** [RestartOnSpec]: file-watch names and button names. *)
Record RestartOnSpec := mkRestartOnSpec {
  RestartOnFileWatches : list string;
  RestartOnUIButtons : list string;
}.

(** The handler of a readiness probe, a closed sum of the probe kinds. *)
Inductive Handler :=
| ExecAction (command : list string)
| HTTPGetAction (port : Z).

(** [ConfigMapDisableSource]: the name of the config map and the key. *)
Abbreviation DisableSource := (string * string)%type.

Record CmdSpec := mkCmdSpec {
  Args : list string;
  Dir : string;
  Env : list string;
  ReadinessProbe : option Handler;
  StartOn : option StartOnSpec;
  RestartOn : option RestartOnSpec;
  DisableSourceOf : option DisableSource;
}.

(** The execution-relevant part of a spec: args, working dir, env, probe. *)
Record ExecSpec := mkExecSpec {
  exArgs : list string;
  exDir : string;
  exEnv : list string;
  exProbe : option Handler;
}.

(** Modelled from the spec: the execution-relevant fields (§4.5 item 2). *)
Definition execSpec (spec : CmdSpec) : ExecSpec :=
  mkExecSpec (Args spec) (Dir spec) (Env spec) (ReadinessProbe spec).

(** A command object: its spec and the creation timestamp of its metadata. *)
Record CmdObj := mkCmdObj {
  Spec : CmdSpec;
  CreationTimestamp : Time;
}.

#[global] Instance Handler_eq_dec : EqDecision Handler.
Proof. solve_decision. Defined.
#[global] Instance ExecSpec_eq_dec : EqDecision ExecSpec.
Proof. solve_decision. Defined.

(** ** Observed state *)

(** Modelled from the spec: the status of a command (§3), exactly one of
    Waiting with a reason, Running with the process handle and start time,
    Terminated with the handle, exit code and reason. *)
Inductive Phase :=
| Waiting (reason : string)
| Running (pid : nat) (startedAt : Time)
| Terminated (pid : nat) (exitCode : Z) (reason : string).

Inductive DisableState :=
| DisableStateEnabled
| DisableStateDisabled
| DisableStatePending.

#[global] Instance DisableState_eq_dec : EqDecision DisableState.
Proof. solve_decision. Defined.

(** Modelled from the spec: the observed state (§3): phase, readiness and
    disable status. *)
Record CmdStatus := mkCmdStatus {
  phase : Phase;
  Ready : bool;
  DisableStatus : DisableState;
}.

(** The reasons of a Waiting status; the tests refer to the first one as
    [waitingOnStartOnReason]. *)
Definition waitingOnStartOnReason : string := "cmd StartOn has not been triggered".
Definition waitingOnDisableReason : string := "cmd is disabled".

(** ** Trigger sources *)

(** A declared input of a button, a closed sum of the input kinds. *)
Inductive UIInputKind :=
| TextInput
| BoolInput (TrueString FalseString : option string)
| HiddenInput (value : string)
| ChoiceInput (choices : list string).

Record UIInputSpec := mkUIInputSpec {
  inputName : string;
  inputKind : UIInputKind;
}.

(** A value of the snapshot taken at click time. *)
Inductive UIInputValue :=
| TextValue (v : string)
| BoolValue (b : bool)
| HiddenValue (v : string)
| ChoiceValue (v : string).

Record UIInputStatus := mkUIInputStatus {
  statusName : string;
  statusValue : UIInputValue;
}.

Record UIButton := mkUIButton {
  Inputs : list UIInputSpec;
  LastClickedAt : Time;
  StatusInputs : list UIInputStatus;
}.

(** What a trigger event comes from. *)
Inductive TriggerSource :=
| ByButton (name : string)
| ByFileWatch (name : string).

(** Everything the reconciler reads and does not own: the command
    resources, the file watches (last event time), the buttons, the
    disable sources (the boolean each one carries), the commands whose
    owning resource has a build in flight, and the clock. *)
Record World := mkWorld {
  Cmds : gmap string CmdObj;
  FileWatchTimes : gmap string Time;
  UIButtons : gmap string UIButton;
  DisableSources : gmap DisableSource bool;
  Building : gset string;
  Now : Time;
}.

(** ** Process supervisor *)

Inductive ProcState :=
| PRunning
| PExited (code : Z)
| PCanceled.

(** Modelled from the spec: a process instance (§3): the process with its
    argument vector, working directory and environment, the probe session
    and the log stream. The handle of an instance is its index in the
    supervisor's table. *)
Record Process := mkProcess {
  owner : string;
  pArgs : list string;
  pDir : string;
  pEnv : list string;
  pState : ProcState;
  probing : bool;
  logOpen : bool;
  attempts : nat;
}.

(** What the supervisor and the prober did, in the order of §5; a trace
    lists the newest event first. *)
Inductive Event :=
| EvSpawn (name : string) (pid : nat)
| EvSignal (pid : nat)
| EvStopProbe (pid : nat)
| EvCloseLog (pid : nat)
| EvExit (pid : nat) (code : Z)
| EvProbe (pid : nat).

Record Supervisor := mkSupervisor {
  table : list Process;
  trace : list Event;
  logs : list string;
}.

(** ** Reconciler state *)

Record Instance := mkInstance {
  handle : nat;
  startedWith : ExecSpec;
}.

(** Modelled from the spec: what the reconciler keeps per command (§3):
    the owned instance with the execution-relevant fields it was started
    with, the watermark and the status. *)
Record Proc := mkProc {
  instance : option Instance;
  watermark : Time;
  status : CmdStatus;
}.

Record State := mkState {
  world : World;
  procs : gmap string Proc;
  sup : Supervisor;
}.

Definition init : State :=
  mkState (mkWorld ∅ ∅ ∅ ∅ ∅ 0) ∅ (mkSupervisor [] [] []).

(** ** Process supervisor: operations *)

Definition joinArgs (args : list string) : string := String.concat " " args.

Definition setState (st : ProcState) (p : Process) : Process :=
  mkProcess (owner p) (pArgs p) (pDir p) (pEnv p) st (probing p) (logOpen p) (attempts p).

Definition setProbing (b : bool) (p : Process) : Process :=
  mkProcess (owner p) (pArgs p) (pDir p) (pEnv p) (pState p) b (logOpen p) (attempts p).

Definition setLogOpen (b : bool) (p : Process) : Process :=
  mkProcess (owner p) (pArgs p) (pDir p) (pEnv p) (pState p) (probing p) b (attempts p).


Definition isRunning (p : Process) : bool :=
  match pState p with PRunning => true | _ => false end.

(** Modelled from the spec: the controller's process supervisor is not in
    the sources. [Signal(handle, mode)] (§4.1) ends a running process,
    which is logged as "cmd … canceled". *)
Definition signal (pid : nat) (sv : Supervisor) : Supervisor :=
  match table sv !! pid with
  | Some p =>
      if isRunning p then
        mkSupervisor (<[pid := setState PCanceled p]> (table sv))
          (EvSignal pid :: trace sv)
          (("cmd " +:+ joinArgs (pArgs p) +:+ " canceled") :: logs sv)
      else mkSupervisor (table sv) (EvSignal pid :: trace sv) (logs sv)
  | None => mkSupervisor (table sv) (EvSignal pid :: trace sv) (logs sv)
  end.

(** Modelled from the spec: [StopProbing(handle)] (§4.2). *)
Definition stopProbing (pid : nat) (sv : Supervisor) : Supervisor :=
  mkSupervisor (alter (setProbing false) pid (table sv))
    (EvStopProbe pid :: trace sv) (logs sv).

(** Modelled from the spec: closing the log stream of an instance (§3). *)
Definition closeLog (pid : nat) (sv : Supervisor) : Supervisor :=
  mkSupervisor (alter (setLogOpen false) pid (table sv))
    (EvCloseLog pid :: trace sv) (logs sv).

(** Modelled from the spec: disposal of an instance (§5): process
    signaled, probe stopped, log stream closed, in this order. *)
Definition dispose (pid : nat) (sv : Supervisor) : Supervisor :=
  closeLog pid (stopProbing pid (signal pid sv)).

(** Disposal of the instance a command owns, if it owns one. *)
Definition disposeInstance (oi : option Instance) (sv : Supervisor) : Supervisor :=
  match oi with
  | Some inst => dispose (handle inst) sv
  | None => sv
  end.

(** Modelled from the spec: [Start(commandSpec)] (§4.1) creates the process
    with the given argument vector, working directory and environment and
    logs "Starting cmd …"; the new handle is the next free index. *)
Definition spawn (name : string) (args : list string) (dir : string)
    (env : list string) (sv : Supervisor) : Supervisor :=
  mkSupervisor
    (table sv ++ [mkProcess name args dir env PRunning false true 0])
    (EvSpawn name (length (table sv)) :: trace sv)
    (("Starting cmd " +:+ joinArgs args) :: logs sv).

(** Modelled from the spec: validation of a probe spec (§4.2): the port of
    an HTTP probe must be in the valid TCP port range, the command of an
    exec probe must be non-empty. The result is the description of the
    defect, if any. *)
Definition validateProbe (h : Handler) : option string :=
  match h with
  | HTTPGetAction port =>
      if (1 <=? port) && (port <=? 65535) then None
      else Some ("port number out of range: " +:+ pretty port)
  | ExecAction command =>
      match command with
      | [] => Some "exec command is empty"
      | _ :: _ => None
      end
  end.

(** Modelled from the spec: [BeginProbing(handle, probeSpec)] (§4.2). An
    invalid spec fails fast: the process is terminated with exit code 1 and
    "Invalid readiness probe: …" is logged; no probing starts. *)
Definition beginProbing (pid : nat) (h : Handler) (sv : Supervisor) : Supervisor :=
  match validateProbe h with
  | Some err =>
      mkSupervisor (alter (setState (PExited 1)) pid (table sv))
        (EvExit pid 1 :: trace sv)
        (("Invalid readiness probe: " +:+ err) :: logs sv)
  | None =>
      mkSupervisor (alter (setProbing true) pid (table sv)) (trace sv) (logs sv)
  end.

(** ** Disable evaluator *)

(** Modelled from the spec: [Resolve(disableSourceRef)] (§4.4). A command
    without a disable source is enabled; a source not yet observed is
    unknown ([DisableStatePending]). *)
Definition resolveDisable (w : World) (ds : option DisableSource) : DisableState :=
  match ds with
  | None => DisableStateEnabled
  | Some ref =>
      match DisableSources w !! ref with
      | None => DisableStatePending
      | Some true => DisableStateDisabled
      | Some false => DisableStateEnabled
      end
  end.

(** ** Triggers *)

(** Modelled from the spec: the newer of two trigger events (§3, the
    newest timestamp among the trigger sources); the earlier one in the
    declaration order wins a tie. *)
Definition later (acc : option (Time * TriggerSource))
    (ev : Time * TriggerSource) : option (Time * TriggerSource) :=
  match acc with
  | None => Some ev
  | Some (t, _) => if t <? ev.1 then Some ev else acc
  end.

(** Modelled from the spec: the clicks of the [StartOn] buttons that count
    (§4.5 item 3): the button exists and its click is at or after
    [StartAfter]. *)
Definition startEvents (w : World) (spec : CmdSpec) : list (Time * TriggerSource) :=
  match StartOn spec with
  | None => []
  | Some so =>
      omap (λ b, match UIButtons w !! b with
                 | Some btn =>
                     if StartAfter so <=? LastClickedAt btn
                     then Some (LastClickedAt btn, ByButton b) else None
                 | None => None
                 end)
           (StartOnUIButtons so)
  end.

(** Modelled from the spec: the events of the [RestartOn] file watches and
    buttons (§4.5 item 4). *)
Definition restartEvents (w : World) (spec : CmdSpec) : list (Time * TriggerSource) :=
  match RestartOn spec with
  | None => []
  | Some ro =>
      omap (λ f, (λ t, (t, ByFileWatch f)) <$> FileWatchTimes w !! f)
           (RestartOnFileWatches ro)
      ++ omap (λ b, (λ btn, (LastClickedAt btn, ByButton b)) <$> UIButtons w !! b)
              (RestartOnUIButtons ro)
  end.

(** Modelled from the spec: the events of all trigger sources of a command
    (§3). *)
Definition triggerEvents (w : World) (spec : CmdSpec) : list (Time * TriggerSource) :=
  startEvents w spec ++ restartEvents w spec.

(** Modelled from the spec: the newest event among the sources (§3). *)
Definition latest (evs : list (Time * TriggerSource)) : option (Time * TriggerSource) :=
  foldl later None evs.

(** Modelled from the spec: the newest event, if it is strictly newer than
    the watermark (§3, §4.5 items 3 and 4). *)
Definition fired (wm : Time) (evs : list (Time * TriggerSource))
    : option (Time * TriggerSource) :=
  match latest evs with
  | Some (t, src) => if wm <? t then Some (t, src) else None
  | None => None
  end.

(** Modelled from the spec: the watermark after the events have been
    consumed (§3): it only moves forward. *)
Definition advance (wm : Time) (evs : list (Time * TriggerSource)) : Time :=
  match latest evs with
  | Some (t, _) => Z.max wm t
  | None => wm
  end.

(** ** Button inputs *)

(** The value of an input in the snapshot taken at click time. *)
Definition findInput (name : string) (snapshot : list UIInputStatus)
    : option UIInputValue :=
  statusValue <$> find (λ st, bool_decide (statusName st = name)) snapshot.

(** Modelled from the spec: the resolved value of a declared input (§4.5
    item 5): text, boolean with its true/false strings defaulting to
    "true"/"false", hidden constant, choice falling back to the first choice
    on an empty or invalid value. *)
Definition inputValue (i : UIInputSpec) (snapshot : list UIInputStatus) : string :=
  match inputKind i with
  | TextInput =>
      match findInput (inputName i) snapshot with
      | Some (TextValue v) => v
      | _ => ""
      end
  | BoolInput ts fs =>
      match findInput (inputName i) snapshot with
      | Some (BoolValue true) => default "true" ts
      | _ => default "false" fs
      end
  | HiddenInput v => v
  | ChoiceInput choices =>
      match findInput (inputName i) snapshot with
      | Some (ChoiceValue v) =>
          if bool_decide (v ≠ "" ∧ v ∈ choices) then v else default "" (head choices)
      | _ => default "" (head choices)
      end
  end.

(** Modelled from the spec: the [NAME=value] pairs of a button's declared
    inputs (§4.5 item 5). *)
Definition inputsEnv (btn : UIButton) : list string :=
  (λ i, inputName i +:+ "=" +:+ inputValue i (StatusInputs btn)) <$> Inputs btn.

(** Modelled from the spec: the pairs contributed by the trigger that
    caused a start (§4.5 item 5): those of the button that was clicked, none
    for a file watch or an untriggered start. *)
Definition causeEnv (w : World) (cause : option TriggerSource) : list string :=
  match cause with
  | Some (ByButton b) =>
      match UIButtons w !! b with
      | Some btn => inputsEnv btn
      | None => []
      end
  | _ => []
  end.

(** ** The reconciler *)

(** Modelled from the spec: the next action for a command (§4.5).
    [DStart] carries the trigger that caused it, if any, and the watermark
    after it. *)
Inductive Decision :=
| DDispose
| DStop
| DWait
| DStart (cause : option TriggerSource) (wm : Time)
| DNoop.

(** Modelled from the spec: the record of a command seen for the first
    time; the watermark is seeded at the creation time (§4.5 item 3). *)
Definition ensureProc (cmd : CmdObj) (opr : option Proc) : Proc :=
  match opr with
  | Some pr => pr
  | None =>
      mkProc None (CreationTimestamp cmd)
        (mkCmdStatus (Waiting "") false DisableStatePending)
  end.

(** Modelled from the spec: the trigger a start is attributed to (§4.5
    item 5): the [StartOn] click if there is one, else the [RestartOn]
    event. *)
Definition causeOf (fs fr : option (Time * TriggerSource)) : option TriggerSource :=
  match fs, fr with
  | Some (_, src), _ => Some src
  | None, Some (_, src) => Some src
  | None, None => None
  end.

(** Modelled from the spec: start gating (§4.5 item 3): without [StartOn]
    the command starts unconditionally; with [StartOn] it waits for a
    counted click newer than the watermark. *)
Definition startGate (spec : CmdSpec) (fs fr : option (Time * TriggerSource))
    (wm' : Time) : Decision :=
  match StartOn spec with
  | None => DStart (causeOf fs fr) wm'
  | Some _ =>
      match fs with
      | Some _ => DStart (causeOf fs fr) wm'
      | None => DWait
      end
  end.

(** Modelled from the spec: the decision for a command that is not
    disabled (§4.5 items 2 to 4): start gating when there is no instance;
    otherwise a build in flight suppresses any restart, a change of the
    execution-relevant fields supersedes the instance and evaluation goes on
    as for a fresh start, and a trigger newer than the watermark restarts.
    The command's [Reconcile] is not in the sources; the tests
    [TestStartOnRunningProcess] and [TestStartOnPreviousTerminatedProcess]
    show that a [StartOn] click newer than the watermark also replaces an
    existing instance. *)
Definition enabledDecision (w : World) (name : string) (spec : CmdSpec)
    (oi : option Instance) (wm : Time) : Decision :=
  let fs := fired wm (startEvents w spec) in
  let fr := fired wm (restartEvents w spec) in
  let wm' := advance wm (triggerEvents w spec) in
  match oi with
  | None => startGate spec fs fr wm'
  | Some inst =>
      if bool_decide (name ∈ Building w) then DNoop
      else if bool_decide (startedWith inst ≠ execSpec spec)
           then startGate spec fs fr wm'
      else match causeOf fs fr with
           | Some src => DStart (Some src) wm'
           | None => DNoop
           end
  end.

(** Modelled from the spec: the transition inputs in their precedence order
    (§4.5): disposal of a deleted command (item 8), the disable check
    (item 1), then the decision for an enabled command. *)
Definition decision (w : World) (name : string) (opr : option Proc) : Decision :=
  match Cmds w !! name with
  | None => DDispose
  | Some cmd =>
      let spec := Spec cmd in
      let pr := ensureProc cmd opr in
      match resolveDisable w (DisableSourceOf spec) with
      | DisableStateDisabled => DStop
      | _ => enabledDecision w name spec (instance pr) (watermark pr)
      end
  end.

(** The exit code recorded for a process the reconciler stopped; the
    specification fixes no value. *)
Definition killedExitCode : Z := -1.

(** Modelled from the spec: the phase after a stop (§4.5 item 1): a running
    instance is terminated, a command that never ran waits, a terminated one
    stays as it is. *)
Definition stopPhase (ph : Phase) : Phase :=
  match ph with
  | Running pid _ => Terminated pid killedExitCode "canceled"
  | Waiting _ => Waiting waitingOnDisableReason
  | Terminated pid code reason => Terminated pid code reason
  end.

(** Modelled from the spec: a start (§4.5 items 4 to 6): the prior instance
    is disposed, the process is created with the spec's environment
    followed by the inputs of the clicked button, and the probe, if any, is
    attached. *)
Definition start (name : string) (spec : CmdSpec) (env : list string)
    (prior : option Instance) (sv : Supervisor) : Supervisor :=
  let sv := disposeInstance prior sv in
  let pid := length (table sv) in
  let sv := spawn name (Args spec) (Dir spec) (Env spec ++ env) sv in
  match ReadinessProbe spec with
  | Some h => beginProbing pid h sv
  | None => sv
  end.

(** Modelled from the spec: the status after a start (§4.5 items 5 and 6):
    Running, ready at once when there is no probe; Terminated with exit
    code 1 when the probe spec is invalid (§4.2). *)
Definition startedStatus (pid : nat) (spec : CmdSpec) (now : Time)
    (ds : DisableState) : CmdStatus :=
  match ReadinessProbe spec with
  | None => mkCmdStatus (Running pid now) true ds
  | Some h =>
      match validateProbe h with
      | Some _ => mkCmdStatus (Terminated pid 1 "invalid readiness probe") false ds
      | None => mkCmdStatus (Running pid now) false ds
      end
  end.

(** Modelled from the spec: one reconciliation pass for a command name
    (§2, §4.5): decide, drive the supervisor and the prober, record the
    status. *)
Definition reconcile (name : string) (s : State) : State :=
  let w := world s in
  match Cmds w !! name with
  | None =>
      match procs s !! name with
      | Some pr =>
          mkState w (delete name (procs s)) (disposeInstance (instance pr) (sup s))
      | None => s
      end
  | Some cmd =>
      let spec := Spec cmd in
      let pr := ensureProc cmd (procs s !! name) in
      let ds := resolveDisable w (DisableSourceOf spec) in
      match decision w name (procs s !! name) with
      | DDispose => s
      | DStop =>
          mkState w
            (<[name := mkProc None (watermark pr)
                         (mkCmdStatus (stopPhase (phase (status pr))) false ds)]>
               (procs s))
            (disposeInstance (instance pr) (sup s))
      | DWait =>
          mkState w
            (<[name := mkProc None (watermark pr)
                         (mkCmdStatus (Waiting waitingOnStartOnReason) false ds)]>
               (procs s))
            (disposeInstance (instance pr) (sup s))
      | DStart cause wm' =>
          let pid := length (table (sup s)) in
          mkState w
            (<[name := mkProc (Some (mkInstance pid (execSpec spec))) wm'
                         (startedStatus pid spec (Now w) ds)]>
               (procs s))
            (start name spec (causeEnv w cause) (instance pr) (sup s))
      | DNoop =>
          mkState w
            (<[name := mkProc (instance pr) (watermark pr)
                         (mkCmdStatus (phase (status pr)) (Ready (status pr)) ds)]>
               (procs s))
            (sup s)
      end
  end.

(** ** Asynchronous notifications *)

(** A notification about a process updates the status of its command only
    while that process is the owned instance. *)
Definition onInstance (pid : nat) (f : CmdStatus → CmdStatus) (pr : Proc) : Proc :=
  match instance pr with
  | Some inst =>
      if bool_decide (handle inst = pid)
      then mkProc (instance pr) (watermark pr) (f (status pr))
      else pr
  | None => pr
  end.

(** Modelled from the spec: the supervisor's notification that a running
    process exited (§4.5 item 7): the process is terminated, probing stops,
    "cmd … exited with code …" is logged and the status of the owning
    command becomes [Terminated] with the reported code. *)
Definition processExit (pid : nat) (code : Z) (s : State) : State :=
  match table (sup s) !! pid with
  | Some p =>
      if isRunning p then
        mkState (world s)
          (alter (onInstance pid
                    (λ st, mkCmdStatus (Terminated pid code "exited") false
                             (DisableStatus st)))
                 (owner p) (procs s))
          (mkSupervisor
             (<[pid := setProbing false (setState (PExited code) p)]> (table (sup s)))
             (EvExit pid code :: trace (sup s))
             (("cmd " +:+ joinArgs (pArgs p) +:+ " exited with code " +:+ pretty code)
                :: logs (sup s)))
      else s
  | None => s
  end.


(** ** The system *)

(** The outside world changes; the reconciler has not run yet. *)
Definition withWorld (w : World) (s : State) : State :=
  mkState w (procs s) (sup s).





(** ** Relations used to state what the moves preserve *)




(** The instance a command owns, if any. *)
Definition instOf (opr : option Proc) : option Instance := opr ≫= instance.







(** ** Trigger events and spec edits, as changes of the world *)


Definition click (t : Time) (btn : UIButton) : UIButton :=
  mkUIButton (Inputs btn) t (StatusInputs btn).



(** The spec of a command is replaced. *)
Definition editSpec (name : string) (spec : CmdSpec) (w : World) : World :=
  mkWorld (alter (λ cmd, mkCmdObj spec (CreationTimestamp cmd)) name (Cmds w))
    (FileWatchTimes w) (UIButtons w) (DisableSources w) (Building w) (Now w).


(** Passes for one command, each after a change of the world. *)
Definition passes (name : string) (ws : list World) (s : State) : State :=
  foldl (λ s w, reconcile name (withWorld w s)) s ws.






(** A world in which nothing calls for a start of the instance [inst]: the
    command is present and not disabled, its execution-relevant fields are
    those the instance was started with, and no counted trigger event is
    newer than [wm]. *)
Definition settled (name : string) (inst : Instance) (wm : Time) (w : World) : Prop :=
  ∃ cmd, Cmds w !! name = Some cmd ∧
         resolveDisable w (DisableSourceOf (Spec cmd)) ≠ DisableStateDisabled ∧
         startedWith inst = execSpec (Spec cmd) ∧
         ∀ ev, ev ∈ triggerEvents w (Spec cmd) → ev.1 ≤ wm.

End Cmd.


(* ===================================================================== *)
(** * The scenarios of the Cmd controller tests *)
(* ===================================================================== *)

Module CmdTests.
Import Cmd.

(** 2006-01-02 15:04:05 UTC, the start of the tests' fake clock, in
    microseconds. *)
Definition T0 : Time := 1136214245000000.
Definition second : Time := 1000000.

Definition plain (args : list string) (dir : string) : CmdSpec :=
  mkCmdSpec args dir [] None None None None.

(** As in [TestUpdate], a command that runs "true" and then "false"; the
    spec of the one command "foo" changes, so that the replacement happens
    under one name. *)
Definition wTrue : World :=
  mkWorld {["foo" := mkCmdObj (plain ["true"] ".") T0]} ∅ ∅ ∅ ∅ T0.
Definition wFalse : World :=
  mkWorld {["foo" := mkCmdObj (plain ["false"] ".") T0]} ∅ ∅ ∅ ∅ (T0 + second).
Definition sTrue : State := reconcile "foo" (withWorld wTrue init).
Definition sFalse : State := reconcile "foo" (withWorld wFalse sTrue).



(** [TestDisableCmd]: command "cmd-1" with a disable source. *)
Definition disableCmd1 : DisableSource := ("disable-cmd-1", "isDisabled").
Definition specSleep : CmdSpec :=
  mkCmdSpec ["sh"; "-c"; "sleep 10000"] "" [] None None None (Some disableCmd1).
Definition wEnabled : World :=
  mkWorld {["cmd-1" := mkCmdObj specSleep 0]} ∅ ∅ {[disableCmd1 := false]} ∅ T0.
Definition wDisabled : World :=
  mkWorld {["cmd-1" := mkCmdObj specSleep 0]} ∅ ∅ {[disableCmd1 := true]} ∅ T0.
Definition sEnabled : State := reconcile "cmd-1" (withWorld wEnabled init).
Definition sDisabled : State := withWorld wDisabled sEnabled.

(** [setupStartOnTest]: command "testcmd" starts on button "b-1", with
    [StartAfter] at the time of the set-up; the object literal of the test
    leaves the creation timestamp at zero. *)
Definition startOnB1 : StartOnSpec := mkStartOnSpec ["b-1"] T0.
Definition specServer : CmdSpec :=
  mkCmdSpec ["myserver"] "" [] None (Some startOnB1) None None.
Definition testcmd : CmdObj := mkCmdObj specServer 0.
Definition button (clicked : Time) : UIButton := mkUIButton [] clicked [].
Definition wSetup (b1 : UIButton) (now : Time) : World :=
  mkWorld {["testcmd" := testcmd]} ∅ {["b-1" := b1]} ∅ ∅ now.

(** [TestDependencyChangesDoNotCauseRestart]: "testcmd" runs after a click
    of "b-1"; its StartOn and RestartOn are then pointed at a new button and
    a new file watch that have not fired. *)
Definition wClicked : World := wSetup (button T0) (T0 + second).
Definition sServer : State := reconcile "testcmd" (withWorld wClicked init).
Definition specRewired : CmdSpec :=
  mkCmdSpec ["myserver"] "" [] None (Some (mkStartOnSpec ["new-button"] 0))
    (Some (mkRestartOnSpec ["new-filewatch"] [])) None.
Definition wNewSources : World :=
  mkWorld {["testcmd" := testcmd]} {["new-filewatch" := 0]}
    {["b-1" := button T0; "new-button" := button 0]} ∅ ∅ (T0 + 2 * second).
Definition sNewSources : State := withWorld wNewSources sServer.


(** [TestCmdOnlyUsesButtonThatStartedIt]: "b-1" carries the inputs of
    [TestCmdUsesInputsFromButtonOnStart], "b-2" is the button that is
    clicked. *)
Definition b1Inputs : UIButton :=
  mkUIButton [mkUIInputSpec "foo" TextInput; mkUIInputSpec "baz" TextInput] 0
    [mkUIInputStatus "foo" (TextValue "bar");
     mkUIInputStatus "baz" (TextValue "wait what comes next")].



(** The environment of the process started by a click of "b-1" at [T0],
    as the input tests read it. *)
Definition envAfterClick (b1 : UIButton) : option (list string) :=
  pEnv <$> table (sup (reconcile "testcmd" (withWorld (wSetup (click T0 b1) T0) init)))
             !! 0%nat.

(** The button of [TestBoolInput], [TestHiddenInput] and [TestChoiceInput]:
    one declared input and its value in the snapshot. *)
Definition oneInput (name : string) (kind : UIInputKind) (v : UIInputValue) : UIButton :=
  mkUIButton [mkUIInputSpec name kind] 0 [mkUIInputStatus name v].

(** The phase of "testcmd" and the states of the processes, as the StartOn
    tests read them. *)
Definition phaseOf (name : string) (s : State) : option Phase :=
  (phase ∘ status) <$> procs s !! name.
Definition processStates (s : State) : list ProcState := pState <$> table (sup s).

(** [TestStartOnRunningProcess]: a click one second after the set-up starts
    the command, a second click one second later replaces the process. *)
Definition sFirstClick : State :=
  reconcile "testcmd" (withWorld (wSetup (button (T0 + second)) (T0 + second)) init).
Definition sSecondClick : State :=
  reconcile "testcmd"
    (withWorld (wSetup (button (T0 + 2 * second)) (T0 + 2 * second)) sFirstClick).

(** [TestStartOnPreviousTerminatedProcess]: the process started by the first
    click exits with code 1; a click one second later starts a new one. *)
Definition sExited : State :=
  processExit 0 1 (reconcile "testcmd" (withWorld (wSetup (button T0) T0) init)).
Definition sClickedAgain : State :=
  reconcile "testcmd" (withWorld (wSetup (button (T0 + second)) (T0 + second)) sExited).

(** [TestSelfModifyingCmd]: the command waits, is started by a click, has its
    args changed to "yourserver", waits again, and is started by a second
    click. *)
Definition specYourServer : CmdSpec :=
  mkCmdSpec ["yourserver"] "" [] None (Some startOnB1) None None.
Definition sSelf1 : State := reconcile "testcmd" (withWorld (wSetup (button 0) T0) init).
Definition sSelf2 : State :=
  reconcile "testcmd"
    (withWorld (wSetup (button (T0 + second)) (T0 + 2 * second)) sSelf1).
Definition sSelf3 : State :=
  reconcile "testcmd"
    (withWorld (editSpec "testcmd" specYourServer
                  (wSetup (button (T0 + second)) (T0 + 2 * second))) sSelf2).
Definition sSelf4 : State :=
  reconcile "testcmd"
    (withWorld (editSpec "testcmd" specYourServer
                  (wSetup (button (T0 + 3 * second)) (T0 + 3 * second))) sSelf3).

(** [TestReenable]: the command is created disabled and then enabled. *)
Definition sBornDisabled : State := reconcile "cmd-1" (withWorld wDisabled init).
Definition sReenabled : State := reconcile "cmd-1" (withWorld wEnabled sBornDisabled).

(** [TestDisposeOrphans]: the command of a running process is deleted. *)
Definition sOrphan : State :=
  reconcile "foo" (withWorld (mkWorld ∅ ∅ ∅ ∅ ∅ (T0 + second)) sTrue).

End CmdTests.

(* ===================================================================== *)
(** * Package fswatch                                                     *)
(* ===================================================================== *)

Module Fswatch.

(** [types.NamespacedName]: namespace and name. *)
Abbreviation NamespacedName := (string * string)%type.

(** [filewatches.IgnoreDef] *)
Record IgnoreDef := mkIgnoreDef {
  BasePath : string;
  ignPatterns : list string;
}.

(** [filewatches.FileWatchSpec]. A [nil] slice and an empty slice are both
    the empty list, which is how [equality.Semantic.DeepEqual] compares
    them. *)
Record FileWatchSpec := mkFileWatchSpec {
  WatchedPaths : list string;
  Ignores : list IgnoreDef;
}.

(** [filewatches.FileWatch]: the object metadata the subscriber writes, the
    spec, and the status kept by the watcher. *)
Record FileWatch := mkFileWatch {
  fwNamespace : string;
  fwName : string;
  fwAnnotations : list (string * string);
  fwSpec : FileWatchSpec;
  fwLastEventTime : Time;
}.

(** [model.Dockerignore] *)
Record Dockerignore := mkDockerignore {
  LocalPath : string;
  Source : string;
  Patterns : list string;
}.

(** [store.ChangeSummary], as far as [OnChange] reads it: the result of
    [IsLogOnly()] and the field [Legacy]. *)
Record ChangeSummary := mkChangeSummary {
  IsLogOnly : bool;
  Legacy : bool;
}.

#[global] Instance IgnoreDef_eq_dec : EqDecision IgnoreDef.
Proof. solve_decision. Defined.
#[global] Instance FileWatchSpec_eq_dec : EqDecision FileWatchSpec.
Proof. solve_decision. Defined.
#[global] Instance FileWatch_eq_dec : EqDecision FileWatch.
Proof. solve_decision. Defined.

(** The actions [OnChange] hands to [st.Dispatch]. *)
Inductive Action :=
| FileWatchCreateAction (fw : FileWatch)
| FileWatchUpdateAction (fw : FileWatch)
| FileWatchDeleteAction (name : NamespacedName).

#[global] Instance Action_eq_dec : EqDecision Action.
Proof. solve_decision. Defined.

Section manifest_subscriber.

(** [model.TargetID] with its [String()] method, [apis.SanitizeName],
    [filepath.Dir], [filepath.Base], [Dockerignore.Empty],
    [ConfigsTargetID] and [filewatches.AnnotationTargetID] are declared
    outside the file; they are parameters here. *)
Context {TargetID : Type} `{Countable TargetID}.
Variable TargetID_String : TargetID → string.
Variable SanitizeName : string → string.
Variable filepath_Dir filepath_Base : string → string.
Variable Dockerignore_Empty : Dockerignore → bool.
Variable ConfigsTargetID : TargetID.
Variable AnnotationTargetID : string.

(** The [WatchableTarget] interface: what [specForTarget] reads. *)
Record WatchableTarget := mkWatchableTarget {
  Dependencies : list string;
  Dockerignores : list Dockerignore;
  IgnoredLocalDirectories : list string;
}.

(** [model.TargetSpec]: every target has an ID; the type assertion
    [t.(WatchableTarget)] succeeds when [asWatchable] is [Some]. *)
Record TargetSpec := mkTargetSpec {
  ID : TargetID;
  asWatchable : option WatchableTarget;
}.

(** [model.ImageTarget], as far as [globalIgnores] reads it:
    [CustomBuildInfo().OutputsImageRefTo]. *)
Record ImageTarget := mkImageTarget {
  OutputsImageRefTo : string;
}.

Record Manifest := mkManifest {
  TargetSpecs : list TargetSpec;
  ImageTargets : list ImageTarget;
}.

(** [store.EngineState], as far as the subscriber reads it.
    [WatchesFiles] is [state.EngineMode.WatchesFiles()]; [Manifests] is
    the result of [state.Manifests()]. *)
Record EngineState := mkEngineState {
  WatchesFiles : bool;
  Manifests : list Manifest;
  ConfigFiles : list string;
  Tiltignore : Dockerignore;
  WatchSettingsIgnores : list Dockerignore;
  FileWatches : gmap NamespacedName FileWatch;
}.

Definition addGlobalIgnoresToSpec (spec : FileWatchSpec)
    (globalIgnores : list Dockerignore) : FileWatchSpec :=
  foldl (λ spec gi,
           mkFileWatchSpec (WatchedPaths spec)
             (Ignores spec ++ [mkIgnoreDef (LocalPath gi) (Patterns gi)]))
        spec globalIgnores.

Definition specForTarget (t : WatchableTarget)
    (globalIgnores : list Dockerignore) : FileWatchSpec :=
  let spec := mkFileWatchSpec (Dependencies t) [] in
  let spec :=
    foldl (λ spec di,
             if Dockerignore_Empty di then spec
             else mkFileWatchSpec (WatchedPaths spec)
                    (Ignores spec ++ [mkIgnoreDef (LocalPath di) (Patterns di)]))
          spec (Dockerignores t) in
  let spec :=
    foldl (λ spec ild,
             mkFileWatchSpec (WatchedPaths spec)
               (Ignores spec ++ [mkIgnoreDef ild []]))
          spec (IgnoredLocalDirectories t) in
  addGlobalIgnoresToSpec spec globalIgnores.

Definition globalIgnores (es : EngineState) : list Dockerignore :=
  let ignores := [] in
  let ignores :=
    if negb (Dockerignore_Empty (Tiltignore es))
    then ignores ++ [Tiltignore es] else ignores in
  let ignores := ignores ++ WatchSettingsIgnores es in
  foldl (λ ignores manifest,
           foldl (λ ignores iTarget,
                    let out := OutputsImageRefTo iTarget in
                    if decide (out ≠ "")
                    then ignores ++
                         [mkDockerignore (filepath_Dir out)
                            "outputs_image_ref_to" [filepath_Base out]]
                    else ignores)
                 ignores (ImageTargets manifest))
        ignores (Manifests es).

Definition SpecsFromState (state : EngineState) : gmap TargetID FileWatchSpec :=
  let globalIgnores := globalIgnores state in
  let fileWatches : gmap TargetID FileWatchSpec := ∅ in
  let fileWatches :=
    foldl (λ fileWatches m,
             foldl (λ (fileWatches : gmap TargetID FileWatchSpec) t,
                      match fileWatches !! ID t, asWatchable t with
                      | None, Some wt =>
                          <[ID t := specForTarget wt globalIgnores]> fileWatches
                      | _, _ => fileWatches
                      end)
                   fileWatches (TargetSpecs m))
          fileWatches (Manifests state) in
  if decide (0 < length (ConfigFiles state))%nat then
    let configSpec := mkFileWatchSpec (ConfigFiles state) [] in
    <[ConfigsTargetID := addGlobalIgnoresToSpec configSpec globalIgnores]> fileWatches
  else fileWatches.

(** [types.NamespacedName{Name: apis.SanitizeName(targetID.String())}] *)
Definition watchName (targetID : TargetID) : NamespacedName :=
  ("", SanitizeName (TargetID_String targetID)).

(** One iteration of the first loop of [OnChange]: the name goes into
    [watchesToKeep], and an update or a create is dispatched unless the
    existing object already carries the computed spec. *)
Definition processSpec (state : EngineState)
    (acc : gset NamespacedName * list Action)
    (entry : TargetID * FileWatchSpec) : gset NamespacedName * list Action :=
  let '(watchesToKeep, dispatched) := acc in
  let '(targetID, spec) := entry in
  let name := watchName targetID in
  let watchesToKeep := {[name]} ∪ watchesToKeep in
  match FileWatches state !! name with
  | Some existing =>
      if decide (fwSpec existing = spec) then (watchesToKeep, dispatched)
      else
        let updated :=
          mkFileWatch (fwNamespace existing) (fwName existing)
            (fwAnnotations existing) spec (fwLastEventTime existing) in
        (watchesToKeep, dispatched ++ [FileWatchUpdateAction updated])
  | None =>
      let fw :=
        mkFileWatch name.1 name.2
          [(AnnotationTargetID, TargetID_String targetID)] spec 0 in
      (watchesToKeep, dispatched ++ [FileWatchCreateAction fw])
  end.

(** One iteration of the second loop: delete what is not kept. *)
Definition processExisting (watchesToKeep : gset NamespacedName)
    (dispatched : list Action) (name : NamespacedName) : list Action :=
  if decide (name ∈ watchesToKeep) then dispatched
  else dispatched ++ [FileWatchDeleteAction name].

(** [OnChange] with the two [range] loops run over given enumerations of
    the two maps. *)
Definition OnChange_ranging (state : EngineState)
    (specs : list (TargetID * FileWatchSpec))
    (names : list NamespacedName) : list Action :=
  let '(watchesToKeep, dispatched) := foldl (processSpec state) (∅, []) specs in
  foldl (processExisting watchesToKeep) dispatched names.

(** [ManifestSubscriber.OnChange]: the list of dispatched actions. Go
    leaves the iteration order of a map unspecified; the order used here is
    that of [map_to_list]. *)
Definition OnChange (state : EngineState) (summary : ChangeSummary) : list Action :=
  if IsLogOnly summary || negb (Legacy summary) then []
  else if negb (WatchesFiles state) then []
  else
    OnChange_ranging state (map_to_list (SpecsFromState state))
      ((map_to_list (FileWatches state)).*1).

(** What one entry of the computed specs makes [OnChange] dispatch. *)
Definition specActions (state : EngineState)
    (entry : TargetID * FileWatchSpec) : list Action :=
  (processSpec state (∅, []) entry).2.

(** The names the first loop keeps. *)
Definition keptNames (specs : list (TargetID * FileWatchSpec)) : gset NamespacedName :=
  list_to_set (watchName <$> specs.*1).

(** The guards of [OnChange] let the pass run. *)
Definition runs (state : EngineState) (summary : ChangeSummary) : Prop :=
  IsLogOnly summary = false ∧ Legacy summary = true ∧ WatchesFiles state = true.

(** ** What the loops of [SpecsFromState] and [globalIgnores] run over *)

(** The [IgnoreDef] the loops build from a dockerignore: its local path and
    its patterns. *)
Definition ignoreOf (di : Dockerignore) : IgnoreDef :=
  mkIgnoreDef (LocalPath di) (Patterns di).

(** The targets of all manifests, in the order the nested loops of
    [SpecsFromState] visit them. *)
Definition allTargets (state : EngineState) : list TargetSpec :=
  Manifests state ≫= TargetSpecs.

(** A target counts for an ID when it carries that ID and is watchable. *)
Definition watchableWithID (id : TargetID) (t : TargetSpec) : option WatchableTarget :=
  if decide (ID t = id) then asWatchable t else None.

(** The first watchable target with a given ID, in visiting order. *)
Definition firstWatchable (state : EngineState) (id : TargetID) : option WatchableTarget :=
  head (omap (watchableWithID id) (allTargets state)).

(** The dockerignore that [globalIgnores] makes for the output file of a
    custom build. *)
Definition outputIgnore (iTarget : ImageTarget) : Dockerignore :=
  mkDockerignore (filepath_Dir (OutputsImageRefTo iTarget)) "outputs_image_ref_to"
    [filepath_Base (OutputsImageRefTo iTarget)].

(** The image targets of all manifests that name an output file, in
    visiting order. *)
Definition outputTargets (es : EngineState) : list ImageTarget :=
  filter (λ iTarget, OutputsImageRefTo iTarget ≠ "") (Manifests es ≫= ImageTargets).

(** The spec [SpecsFromState] files under [ConfigsTargetID]. *)
Definition configSpec (state : EngineState) : FileWatchSpec :=
  mkFileWatchSpec (ConfigFiles state) (ignoreOf <$> globalIgnores state).

(** The name of the FileWatch an action is about. *)
Definition actionName (a : Action) : NamespacedName :=
  match a with
  | FileWatchCreateAction fw | FileWatchUpdateAction fw => (fwNamespace fw, fwName fw)
  | FileWatchDeleteAction name => name
  end.

(** An action has taken effect in a map of FileWatch objects: the created
    or updated object is there with the spec of the action, the deleted
    name is not. *)
Definition tookEffect (fileWatches : gmap NamespacedName FileWatch) (a : Action) : Prop :=
  match a with
  | FileWatchCreateAction fw | FileWatchUpdateAction fw =>
      ∃ fw', fileWatches !! (fwNamespace fw, fwName fw) = Some fw' ∧
             fwSpec fw' = fwSpec fw
  | FileWatchDeleteAction name => fileWatches !! name = None
  end.

(** An action is a delete. *)
Definition isDelete (a : Action) : Prop :=
  match a with FileWatchDeleteAction _ => True | _ => False end.

End manifest_subscriber.

End Fswatch.

(* ===================================================================== *)
(** * Scenarios for the manifest subscriber *)
(* ===================================================================== *)

Module FswatchTests.
Import Fswatch.

(** Target IDs as the strings [String()] prints; the sanitizer and the path
    functions do not matter for the scenarios and are the identity. *)
Definition isEmpty (d : Dockerignore) : bool := bool_decide (Patterns d = []).
Definition onChange : EngineState → ChangeSummary → list Action :=
  OnChange (TargetID := string) id id id id isEmpty "configs:singleton"
    "tilt.dev/target-id".
Definition specsFromState : EngineState → gmap string FileWatchSpec :=
  SpecsFromState (TargetID := string) id id isEmpty "configs:singleton".

Definition noIgnore : Dockerignore := mkDockerignore "" "" [].
Definition stale : FileWatch := mkFileWatch "" "stale" [] (mkFileWatchSpec ["/src"] []) 0.

(** An engine state without manifests or config files that still holds the
    FileWatch "stale"; with and without an engine mode that watches files. *)
Definition stWatching : EngineState (TargetID := string) :=
  mkEngineState true [] [] noIgnore [] {[("", "stale") := stale]}.
Definition stNotWatching : EngineState (TargetID := string) :=
  mkEngineState false [] [] noIgnore [] {[("", "stale") := stale]}.
Definition legacy : ChangeSummary := mkChangeSummary false true.
Definition notLegacy : ChangeSummary := mkChangeSummary false false.

(** A state with one manifest: an image target listed twice, a target
    that is not watchable, and an image target that writes its image ref to
    a file. *)
Definition gitIgnore : Dockerignore := mkDockerignore "/src" "" ["*.tmp"].
Definition imageFoo : TargetSpec (TargetID := string) :=
  mkTargetSpec "image:foo"
    (Some (mkWatchableTarget ["/src/foo"] [gitIgnore; noIgnore]
             ["/src/foo/node_modules"])).
Definition k8sFoo : TargetSpec (TargetID := string) := mkTargetSpec "k8s:foo" None.
Definition stManifest : EngineState (TargetID := string) :=
  mkEngineState true
    [mkManifest [imageFoo; k8sFoo; imageFoo] [mkImageTarget "/out/ref.txt"]]
    [] noIgnore [] {[("", "stale") := stale]}.

(** A state in step: the config file "Tiltfile" is watched by a FileWatch
    that carries the computed spec. *)
Definition configsWatch : FileWatch :=
  mkFileWatch "" "configs:singleton" [("tilt.dev/target-id", "configs:singleton")]
    (mkFileWatchSpec ["Tiltfile"] []) 0.
Definition stInStep : EngineState (TargetID := string) :=
  mkEngineState true [] ["Tiltfile"] noIgnore []
    {[("", "configs:singleton") := configsWatch]}.

(** The state with one manifest after its two actions have taken effect:
    "image:foo" is watched and "stale" is gone. *)
Definition fooWatch : FileWatch :=
  mkFileWatch "" "image:foo" [("tilt.dev/target-id", "image:foo")]
    (mkFileWatchSpec ["/src/foo"]
       [mkIgnoreDef "/src" ["*.tmp"]; mkIgnoreDef "/src/foo/node_modules" [];
        mkIgnoreDef "/out/ref.txt" ["/out/ref.txt"]])
    0.
Definition stManifestDone : EngineState (TargetID := string) :=
  mkEngineState true
    [mkManifest [imageFoo; k8sFoo; imageFoo] [mkImageTarget "/out/ref.txt"]]
    [] noIgnore [] {[("", "image:foo") := fooWatch]}.

End FswatchTests.


(* ===================================================================== *)
(** * The trigger-mode toggle of the overview table                       *)
(* ===================================================================== *)

Module TriggerModeToggle.

(** [ToggleTriggerModeTooltip] *)
Definition ToggleTriggerModeTooltip_isManual : string :=
  "Manual: File changes don’t trigger updates".
Definition ToggleTriggerModeTooltip_isAuto : string :=
  "Auto: File changes trigger update".

Definition titleText (isManual : bool) : string :=
  if isManual then ToggleTriggerModeTooltip_isManual
  else ToggleTriggerModeTooltip_isAuto.

Section toggle.

(** The enum [TriggerMode] is imported from "./types"; its members that the
    component names are parameters here, and [==] on them is equality. *)
Context {TriggerMode : Type} `{EqDecision TriggerMode}.
Variable TriggerModeAuto : TriggerMode.
Variable TriggerModeManualWithAutoInit : TriggerMode.
Variable TriggerModeManual : TriggerMode.

(** The request that [fetch] is called with: the URL, the method, and the
    object that is serialized into the body. *)
Record Request := mkRequest {
  url : string;
  method : string;
  manifest_names : list string;
  trigger_mode : TriggerMode;
}.

(** [toggleTriggerMode]: the request it posts. The handler of the response
    only logs a response that is not ok. *)
Definition toggleTriggerMode (name : string) (mode : TriggerMode) : Request :=
  mkRequest "/api/override/trigger_mode" "post" [name] mode.

Record TriggerModeToggleProps := mkProps {
  resourceName : string;
  triggerMode : TriggerMode;
}.

Definition isManualTriggerMode (props : TriggerModeToggleProps) : bool :=
  bool_decide (triggerMode props = TriggerModeManualWithAutoInit)
  || bool_decide (triggerMode props = TriggerModeManual).

Definition desiredMode (props : TriggerModeToggleProps) : TriggerMode :=
  if isManualTriggerMode props then TriggerModeAuto else TriggerModeManual.

(** What a click does. *)
Definition onClick (props : TriggerModeToggleProps) : Request :=
  toggleTriggerMode (resourceName props) (desiredMode props).

(** The rendered button: its class, its title, and its click handler. *)
Record Toggle := mkToggle {
  className : string;
  title : string;
  click : Request;
}.

Definition OverviewTableTriggerModeToggle (props : TriggerModeToggleProps) : Toggle :=
  mkToggle (if isManualTriggerMode props then "is-manual" else "")
    (titleText (isManualTriggerMode props))
    (onClick props).

(** The props after the mode that a click requests has been applied. *)
Definition clicked (props : TriggerModeToggleProps) : TriggerModeToggleProps :=
  mkProps (resourceName props)
    (trigger_mode (click (OverviewTableTriggerModeToggle props))).

End toggle.

(** A numeric enum with the three members in some order, as TypeScript
    numbers them. *)
Definition toggleOf : TriggerModeToggleProps (TriggerMode := nat) → Toggle :=
  OverviewTableTriggerModeToggle 0%nat 1%nat 2%nat.

End TriggerModeToggle.


(* ===================================================================== *)
(** * Facts about [OnChange] *)
(* ===================================================================== *)

Module FswatchFacts.
Import Fswatch.

Section manifest_subscriber.

Context {TargetID : Type} `{Countable TargetID}.
Variable TargetID_String : TargetID → string.
Variable SanitizeName : string → string.
Variable filepath_Dir filepath_Base : string → string.
Variable Dockerignore_Empty : Dockerignore → bool.
Variable ConfigsTargetID : TargetID.
Variable AnnotationTargetID : string.

Local Abbreviation watchName := (Fswatch.watchName TargetID_String SanitizeName).
Local Abbreviation keptNames := (Fswatch.keptNames TargetID_String SanitizeName).
Local Abbreviation processSpec :=
  (Fswatch.processSpec TargetID_String SanitizeName AnnotationTargetID).
Local Abbreviation specActions :=
  (Fswatch.specActions TargetID_String SanitizeName AnnotationTargetID).
Local Abbreviation OnChange_ranging :=
  (Fswatch.OnChange_ranging TargetID_String SanitizeName AnnotationTargetID).
Local Abbreviation SpecsFromState :=
  (Fswatch.SpecsFromState filepath_Dir filepath_Base Dockerignore_Empty ConfigsTargetID).
Local Abbreviation OnChange :=
  (Fswatch.OnChange TargetID_String SanitizeName filepath_Dir filepath_Base
     Dockerignore_Empty ConfigsTargetID AnnotationTargetID).

Lemma processSpec_acc state keep acts entry :
  processSpec state (keep, acts) entry
  = ({[watchName entry.1]} ∪ keep, acts ++ specActions state entry).
Proof.
  unfold specActions, processSpec. destruct entry as [targetID spec]. simpl.
  destruct (FileWatches state !! watchName targetID) as [existing|];
    [case_decide|]; simpl; by rewrite ?app_nil_r.
Qed.

Lemma foldl_processSpec state specs : ∀ keep acts,
  foldl (processSpec state) (keep, acts) specs
  = (keptNames specs ∪ keep, acts ++ (specs ≫= specActions state)).
Proof.
  unfold keptNames.
  induction specs as [|entry specs IH]; intros keep acts; cbn [foldl].
  - simpl. rewrite app_nil_r. f_equal. by rewrite (left_id_L ∅ (∪)).
  - rewrite processSpec_acc, IH, bind_cons, app_assoc. f_equal.
    rewrite !fmap_cons, list_to_set_cons.
    by rewrite (assoc_L (∪)), (comm_L (∪) (list_to_set _)).
Qed.

Lemma foldl_processExisting keep names : ∀ acts,
  foldl (processExisting keep) acts names
  = acts ++ (FileWatchDeleteAction <$> filter (λ name, name ∉ keep) names).
Proof.
  induction names as [|name names IH]; intros acts; simpl.
  - by rewrite app_nil_r.
  - rewrite IH. unfold processExisting. rewrite filter_cons.
    case_decide; case_decide; try done; simpl.
    by rewrite <-app_assoc.
Qed.

Lemma OnChange_ranging_eq state specs names :
  OnChange_ranging state specs names
  = (specs ≫= specActions state)
    ++ (FileWatchDeleteAction <$> filter (λ name, name ∉ keptNames specs) names).
Proof.
  unfold OnChange_ranging. rewrite foldl_processSpec, foldl_processExisting.
  simpl. do 2 f_equal. apply list_filter_iff. intros name.
  by rewrite (right_id_L ∅ (∪)).
Qed.

Lemma elem_of_specActions state targetID spec a :
  a ∈ specActions state (targetID, spec) ↔
  match FileWatches state !! watchName targetID with
  | Some existing =>
      fwSpec existing ≠ spec ∧
      a = FileWatchUpdateAction
            (mkFileWatch (fwNamespace existing) (fwName existing)
               (fwAnnotations existing) spec (fwLastEventTime existing))
  | None =>
      a = FileWatchCreateAction
            (mkFileWatch "" (SanitizeName (TargetID_String targetID))
               [(AnnotationTargetID, TargetID_String targetID)] spec 0)
  end.
Proof.
  unfold specActions, processSpec.
  destruct (FileWatches state !! watchName targetID) as [existing|];
    [case_decide|]; simpl.
  - rewrite elem_of_nil. tauto.
  - rewrite list_elem_of_singleton. tauto.
  - by rewrite list_elem_of_singleton.
Qed.

Lemma elem_of_keptNames (m : gmap TargetID FileWatchSpec) name :
  name ∈ keptNames (map_to_list m) ↔
  ∃ targetID, is_Some (m !! targetID) ∧ watchName targetID = name.
Proof.
  unfold keptNames. rewrite elem_of_list_to_set, list_elem_of_fmap. split.
  - intros (targetID & -> & Hin). exists targetID. split; [|done].
    apply list_elem_of_fmap in Hin as ([tid spec] & -> & Hin).
    apply elem_of_map_to_list in Hin. by exists spec.
  - intros (targetID & [spec Hspec] & <-). exists targetID. split; [done|].
    apply list_elem_of_fmap. exists (targetID, spec). split; [done|].
    by apply elem_of_map_to_list.
Qed.

Lemma elem_of_OnChange state summary a :
  runs state summary →
  a ∈ OnChange state summary ↔
  (∃ targetID spec, SpecsFromState state !! targetID = Some spec ∧
                    a ∈ specActions state (targetID, spec)) ∨
  (∃ name, a = FileWatchDeleteAction name ∧ is_Some (FileWatches state !! name) ∧
           ∀ targetID, is_Some (SpecsFromState state !! targetID) →
                       watchName targetID ≠ name).
Proof.
  intros (Hlog & Hleg & Hwatch). unfold OnChange. rewrite Hlog, Hleg, Hwatch. simpl.
  rewrite OnChange_ranging_eq, elem_of_app, list_elem_of_bind, list_elem_of_fmap.
  assert (H1 : (∃ entry, a ∈ specActions state entry ∧
                         entry ∈ map_to_list (SpecsFromState state)) ↔
               ∃ targetID spec, SpecsFromState state !! targetID = Some spec ∧
                                a ∈ specActions state (targetID, spec)).
  { split.
    - intros ([targetID spec] & Ha & Hin%elem_of_map_to_list). eauto.
    - intros (targetID & spec & Hspec & Ha). exists (targetID, spec).
      split; [done|]. by apply elem_of_map_to_list. }
  assert (H2 : (∃ name, a = FileWatchDeleteAction name ∧
                  name ∈ filter (λ name, name ∉ keptNames
                                            (map_to_list (SpecsFromState state)))
                           (map_to_list (FileWatches state)).*1) ↔
               ∃ name, a = FileWatchDeleteAction name ∧
                       is_Some (FileWatches state !! name) ∧
                       ∀ targetID, is_Some (SpecsFromState state !! targetID) →
                                   watchName targetID ≠ name).
  { split.
    - intros (name & -> & [Hkeep Hin]%list_elem_of_filter). exists name.
      split; [done|]. split.
      + apply list_elem_of_fmap in Hin as ([n fw] & -> & Hin).
        apply elem_of_map_to_list in Hin. by exists fw.
      + intros targetID Hsome Heq. apply Hkeep, elem_of_keptNames. eauto.
    - intros (name & -> & [fw Hfw] & Hnone). exists name. split; [done|].
      apply list_elem_of_filter. split.
      + intros (targetID & Hsome & Heq)%elem_of_keptNames. by apply (Hnone targetID).
      + apply list_elem_of_fmap. exists (name, fw). split; [done|].
        by apply elem_of_map_to_list. }
  tauto.
Qed.

(** C10 (as amended). When the summary is a legacy summary that is not
    log-only and the engine mode watches files, [OnChange] dispatches a
    create action exactly for the computed specs that have no FileWatch
    object of their name, an update action exactly for those whose existing
    object has another spec (the object with the computed spec put in), and
    a delete action exactly for the existing FileWatch names that no
    computed spec yields. On a state whose FileWatch objects match the
    computed specs it dispatches nothing, and it dispatches nothing at all
    when the summary is log-only or not legacy or the engine mode does not
    watch files. *)
Theorem C10_OnChange_dispatch state summary :
  (runs state summary →
   (∀ fw, FileWatchCreateAction fw ∈ OnChange state summary ↔
          ∃ targetID spec,
            SpecsFromState state !! targetID = Some spec ∧
            FileWatches state !! watchName targetID = None ∧
            fw = mkFileWatch "" (SanitizeName (TargetID_String targetID))
                   [(AnnotationTargetID, TargetID_String targetID)] spec 0) ∧
   (∀ fw, FileWatchUpdateAction fw ∈ OnChange state summary ↔
          ∃ targetID spec existing,
            SpecsFromState state !! targetID = Some spec ∧
            FileWatches state !! watchName targetID = Some existing ∧
            fwSpec existing ≠ spec ∧
            fw = mkFileWatch (fwNamespace existing) (fwName existing)
                   (fwAnnotations existing) spec (fwLastEventTime existing)) ∧
   (∀ name, FileWatchDeleteAction name ∈ OnChange state summary ↔
            is_Some (FileWatches state !! name) ∧
            ∀ targetID, is_Some (SpecsFromState state !! targetID) →
                        watchName targetID ≠ name)) ∧
  ((∀ targetID spec, SpecsFromState state !! targetID = Some spec →
                     ∃ existing, FileWatches state !! watchName targetID = Some existing ∧
                                 fwSpec existing = spec) →
   (∀ name, is_Some (FileWatches state !! name) →
            ∃ targetID, is_Some (SpecsFromState state !! targetID) ∧
                        watchName targetID = name) →
   OnChange state summary = []) ∧
  (¬ runs state summary → OnChange state summary = []).
Proof.
  split_and!.
  - intros Hruns. split_and!.
    + intros fw. rewrite (elem_of_OnChange _ _ _ Hruns). split.
      * intros [(targetID & spec & Hspec & Ha)|(name & [=] & _)].
        apply elem_of_specActions in Ha.
        destruct (FileWatches state !! watchName targetID) eqn:Hfw.
        -- by destruct Ha as [_ [=]].
        -- injection Ha as ->. eauto.
      * intros (targetID & spec & Hspec & Hfw & ->). left.
        exists targetID, spec. split; [done|].
        apply elem_of_specActions. by rewrite Hfw.
    + intros fw. rewrite (elem_of_OnChange _ _ _ Hruns). split.
      * intros [(targetID & spec & Hspec & Ha)|(name & [=] & _)].
        apply elem_of_specActions in Ha.
        destruct (FileWatches state !! watchName targetID) as [existing|] eqn:Hfw.
        -- destruct Ha as [Hne [= ->]]. by exists targetID, spec, existing.
        -- done.
      * intros (targetID & spec & existing & Hspec & Hfw & Hne & ->). left.
        exists targetID, spec. split; [done|].
        apply elem_of_specActions. by rewrite Hfw.
    + intros name. rewrite (elem_of_OnChange _ _ _ Hruns). split.
      * intros [(targetID & spec & Hspec & Ha)|(name' & [= ->] & Hsome & Hnone)].
        -- apply elem_of_specActions in Ha.
           destruct (FileWatches state !! watchName targetID);
             [destruct Ha as [_ [=]] | discriminate Ha].
        -- done.
      * intros [Hsome Hnone]. right. by exists name.
  - intros Hspecs Hnames.
    destruct (IsLogOnly summary) eqn:Hlog;
      [unfold OnChange; by rewrite Hlog|].
    destruct (Legacy summary) eqn:Hleg;
      [|unfold OnChange; by rewrite Hlog, Hleg].
    destruct (WatchesFiles state) eqn:Hwatch;
      [|unfold OnChange; by rewrite Hlog, Hleg, Hwatch].
    assert (Hruns : runs state summary) by done.
    apply elem_of_nil_inv. intros a.
    rewrite (elem_of_OnChange _ _ _ Hruns).
    intros [(targetID & spec & Hspec & Ha)|(name & -> & Hsome & Hnone)].
    + apply elem_of_specActions in Ha.
      destruct (Hspecs _ _ Hspec) as (existing & Hfw & Heq).
      rewrite Hfw in Ha. by destruct Ha.
    + destruct (Hnames _ Hsome) as (targetID & Htid & Heq).
      by apply (Hnone targetID).
  - unfold runs, OnChange. intros Hnot.
    destruct (IsLogOnly summary); [done|].
    destruct (Legacy summary); [|done].
    destruct (WatchesFiles state); [|done]. by destruct Hnot.
Qed.

(** ** The specs computed from the engine state *)

Local Abbreviation specForTarget := (Fswatch.specForTarget Dockerignore_Empty).
Local Abbreviation globalIgnores :=
  (Fswatch.globalIgnores filepath_Dir filepath_Base Dockerignore_Empty).
Local Abbreviation outputIgnore := (Fswatch.outputIgnore filepath_Dir filepath_Base).
Local Abbreviation configSpec :=
  (Fswatch.configSpec filepath_Dir filepath_Base Dockerignore_Empty).

(** [addGlobalIgnoresToSpec] only appends: the watched paths and the
    ignores already in the spec stay, and one ignore per global ignore
    follows, in order, with the path and the patterns of that ignore. Adding
    two lists one after the other is adding their concatenation. *)
Theorem addGlobalIgnoresToSpec_appends spec gis gis' :
  WatchedPaths (addGlobalIgnoresToSpec spec gis) = WatchedPaths spec ∧
  Ignores (addGlobalIgnoresToSpec spec gis) = Ignores spec ++ (ignoreOf <$> gis) ∧
  addGlobalIgnoresToSpec (addGlobalIgnoresToSpec spec gis) gis'
  = addGlobalIgnoresToSpec spec (gis ++ gis').
Proof.
  split_and!.
  - revert spec. induction gis as [|gi gis IH]; intros spec; [done|].
    unfold addGlobalIgnoresToSpec in *. cbn [foldl]. by rewrite IH.
  - revert spec. induction gis as [|gi gis IH]; intros spec.
    + simpl. by rewrite app_nil_r.
    + unfold addGlobalIgnoresToSpec in *. cbn [foldl]. rewrite IH. simpl.
      by rewrite <-app_assoc.
  - unfold addGlobalIgnoresToSpec. by rewrite foldl_app.
Qed.

Lemma addGlobalIgnoresToSpec_eq spec gis :
  addGlobalIgnoresToSpec spec gis
  = mkFileWatchSpec (WatchedPaths spec) (Ignores spec ++ (ignoreOf <$> gis)).
Proof.
  revert spec. induction gis as [|gi gis IH]; intros spec.
  - destruct spec. simpl. by rewrite app_nil_r.
  - unfold addGlobalIgnoresToSpec in *. cbn [foldl]. rewrite IH. simpl.
    by rewrite <-app_assoc.
Qed.

Lemma foldl_dockerignores dis : ∀ spec,
  foldl (λ spec di,
           if Dockerignore_Empty di then spec
           else mkFileWatchSpec (WatchedPaths spec)
                  (Ignores spec ++ [mkIgnoreDef (LocalPath di) (Patterns di)]))
        spec dis
  = mkFileWatchSpec (WatchedPaths spec)
      (Ignores spec
       ++ (ignoreOf <$> filter (λ di, Dockerignore_Empty di = false) dis)).
Proof.
  induction dis as [|di dis IH]; intros spec.
  - destruct spec. simpl. by rewrite app_nil_r.
  - cbn [foldl]. rewrite IH, filter_cons.
    destruct (Dockerignore_Empty di) eqn:He; case_decide; try done.
    simpl. by rewrite <-app_assoc.
Qed.

Lemma foldl_ignoredDirectories dirs : ∀ spec,
  foldl (λ spec ild,
           mkFileWatchSpec (WatchedPaths spec) (Ignores spec ++ [mkIgnoreDef ild []]))
        spec dirs
  = mkFileWatchSpec (WatchedPaths spec)
      (Ignores spec ++ ((λ ild, mkIgnoreDef ild []) <$> dirs)).
Proof.
  induction dirs as [|ild dirs IH]; intros spec.
  - destruct spec. simpl. by rewrite app_nil_r.
  - cbn [foldl]. rewrite IH. simpl. by rewrite <-app_assoc.
Qed.

Lemma specForTarget_ignores_suffix t gis :
  ∃ own, Ignores (specForTarget t gis) = own ++ (ignoreOf <$> gis).
Proof.
  unfold Fswatch.specForTarget.
  rewrite foldl_dockerignores, foldl_ignoredDirectories, addGlobalIgnoresToSpec_eq.
  simpl. by eexists.
Qed.

(** [specForTarget] watches the dependencies of the target and ignores, in
    this order: the dockerignores of the target that are not empty, its
    ignored local directories (a base path without patterns), and the global
    ignores last. *)
Theorem specForTarget_closed_form t gis :
  specForTarget t gis
  = mkFileWatchSpec (Dependencies t)
      ((ignoreOf <$> filter (λ di, Dockerignore_Empty di = false) (Dockerignores t))
       ++ ((λ ild, mkIgnoreDef ild []) <$> IgnoredLocalDirectories t)
       ++ (ignoreOf <$> gis)).
Proof.
  unfold Fswatch.specForTarget.
  rewrite foldl_dockerignores, foldl_ignoredDirectories, addGlobalIgnoresToSpec_eq.
  simpl. by rewrite <-app_assoc.
Qed.

Lemma foldl_imageTargets its : ∀ ignores,
  foldl (λ ignores iTarget,
           let out := OutputsImageRefTo iTarget in
           if decide (out ≠ "")
           then ignores ++
                [mkDockerignore (filepath_Dir out) "outputs_image_ref_to"
                   [filepath_Base out]]
           else ignores)
        ignores its
  = ignores ++ (outputIgnore <$> filter (λ iTarget, OutputsImageRefTo iTarget ≠ "") its).
Proof.
  induction its as [|it its IH]; intros ignores.
  - simpl. by rewrite app_nil_r.
  - cbn [foldl]. rewrite IH, filter_cons. cbv zeta.
    case_decide; [|done]. by rewrite fmap_cons, <-app_assoc.
Qed.

(** [globalIgnores] lists, in this order: the tiltignore unless it is empty,
    the ignores of the watch settings as they are (empty ones included), and
    for every image target whose custom build names an output file, in
    manifest order, an ignore of that one file: its directory as the local
    path and its base name as the only pattern. *)
Theorem globalIgnores_closed_form (es : EngineState (TargetID := TargetID)) :
  globalIgnores es
  = (if Dockerignore_Empty (Tiltignore es) then [] else [Tiltignore es])
    ++ WatchSettingsIgnores es
    ++ (outputIgnore <$> outputTargets es).
Proof.
  unfold Fswatch.globalIgnores, Fswatch.outputTargets.
  assert (Hfold : ∀ (ms : list (@Manifest TargetID)) ignores,
    foldl (λ ignores manifest,
             foldl (λ ignores iTarget,
                      let out := OutputsImageRefTo iTarget in
                      if decide (out ≠ "")
                      then ignores ++
                           [mkDockerignore (filepath_Dir out) "outputs_image_ref_to"
                              [filepath_Base out]]
                      else ignores)
                   ignores (ImageTargets manifest))
          ignores ms
    = ignores ++ (outputIgnore <$> filter (λ iTarget, OutputsImageRefTo iTarget ≠ "")
                                     (ms ≫= ImageTargets))).
  { induction ms as [|m ms IH]; intros ignores.
    - simpl. by rewrite app_nil_r.
    - cbn [foldl]. rewrite IH, foldl_imageTargets, bind_cons, filter_app, fmap_app.
      by rewrite <-app_assoc. }
  rewrite Hfold.
  destruct (Dockerignore_Empty (Tiltignore es)); simpl; by rewrite ?app_assoc.
Qed.

Lemma foldl_targets gi ts : ∀ (fileWatches : gmap TargetID FileWatchSpec) id,
  foldl (λ (fileWatches : gmap TargetID FileWatchSpec) t,
           match fileWatches !! ID t, asWatchable t with
           | None, Some wt => <[ID t := specForTarget wt gi]> fileWatches
           | _, _ => fileWatches
           end)
        fileWatches ts !! id
  = match fileWatches !! id with
    | Some spec => Some spec
    | None => (λ wt, specForTarget wt gi) <$> head (omap (watchableWithID id) ts)
    end.
Proof.
  induction ts as [|t ts IH]; intros fileWatches id.
  - simpl. by destruct (fileWatches !! id).
  - cbn [foldl omap list_omap]. rewrite IH. unfold watchableWithID at 2.
    destruct (decide (ID t = id)) as [<-|Hne].
    + destruct (fileWatches !! ID t) as [spec|] eqn:Hfw.
      * rewrite Hfw. by destruct (asWatchable t).
      * destruct (asWatchable t) as [wt|]; [|by rewrite Hfw].
        by rewrite lookup_insert_eq.
    + destruct (fileWatches !! ID t), (asWatchable t); try done.
      by rewrite lookup_insert_ne.
Qed.

Lemma foldl_manifests {A} (f : A → TargetSpec → A) (ms : list (@Manifest TargetID)) :
  ∀ a, foldl (λ a m, foldl f a (TargetSpecs m)) a ms = foldl f a (ms ≫= TargetSpecs).
Proof.
  induction ms as [|m ms IH]; intros a; [done|].
  cbn [foldl]. by rewrite IH, bind_cons, foldl_app.
Qed.

Lemma SpecsFromState_lookup_config state :
  ConfigFiles state ≠ [] →
  SpecsFromState state !! ConfigsTargetID = Some (configSpec state).
Proof.
  intros Hne. unfold Fswatch.SpecsFromState. cbv zeta.
  rewrite decide_True by (destruct (ConfigFiles state); [done|simpl; lia]).
  by rewrite lookup_insert_eq, addGlobalIgnoresToSpec_eq.
Qed.

Lemma SpecsFromState_lookup_target state id :
  ¬ (id = ConfigsTargetID ∧ ConfigFiles state ≠ []) →
  SpecsFromState state !! id
  = (λ wt, specForTarget wt (globalIgnores state)) <$> firstWatchable state id.
Proof.
  intros Hnot. unfold Fswatch.SpecsFromState, firstWatchable, allTargets. cbv zeta.
  rewrite foldl_manifests.
  destruct (decide (0 < length (ConfigFiles state))%nat) as [Hlen|Hlen].
  - rewrite lookup_insert_ne, foldl_targets, lookup_empty; [done|].
    intros <-. apply Hnot. split; [done|]. intros Heq. rewrite Heq in Hlen.
    simpl in Hlen. lia.
  - by rewrite foldl_targets, lookup_empty.
Qed.

Lemma firstWatchable_is_Some (state : EngineState (TargetID := TargetID)) id :
  is_Some (firstWatchable state id) ↔
  ∃ t, t ∈ allTargets state ∧ ID t = id ∧ is_Some (asWatchable t).
Proof.
  unfold firstWatchable. split.
  - intros [wt Hwt]. apply head_Some_elem_of in Hwt.
    apply list_elem_of_omap in Hwt as (t & Ht & Hw). exists t.
    unfold watchableWithID in Hw. case_decide; [|done]. by rewrite Hw.
  - intros (t & Ht & Hid & [wt Hwt]).
    assert (Hin : wt ∈ omap (watchableWithID id) (allTargets state)).
    { apply list_elem_of_omap. exists t. split; [done|].
      unfold watchableWithID. by rewrite decide_True. }
    destruct (omap (watchableWithID id) (allTargets state)); [|by eexists].
    by apply elem_of_nil in Hin.
Qed.

(** What [SpecsFromState] files under a target ID. With config files, the ID
    [ConfigsTargetID] gets the spec that watches them, whatever targets carry
    that ID. Any other ID gets the spec of the first target, in manifest
    order, that carries the ID and is watchable, and nothing when there is no
    such target: a later target with the same ID does not replace it, and a
    target that is not watchable does not block a later one. *)
Theorem SpecsFromState_lookup state id :
  SpecsFromState state !! id
  = if decide (id = ConfigsTargetID ∧ ConfigFiles state ≠ [])
    then Some (configSpec state)
    else (λ wt, specForTarget wt (globalIgnores state)) <$> firstWatchable state id.
Proof.
  case_decide as Hcfg.
  - destruct Hcfg as [-> Hne]. by apply SpecsFromState_lookup_config.
  - by apply SpecsFromState_lookup_target.
Qed.

(** A target ID has a computed spec exactly when some target of some
    manifest carries it and is watchable, or it is [ConfigsTargetID] and
    there are config files. *)
Theorem SpecsFromState_is_Some state id :
  is_Some (SpecsFromState state !! id) ↔
  (∃ t, t ∈ allTargets state ∧ ID t = id ∧ is_Some (asWatchable t)) ∨
  (id = ConfigsTargetID ∧ ConfigFiles state ≠ []).
Proof.
  destruct (decide (id = ConfigsTargetID ∧ ConfigFiles state ≠ [])) as [Hcfg|Hcfg].
  - split; [by right|]. intros _. destruct Hcfg as [-> Hne].
    rewrite SpecsFromState_lookup_config by done. by eexists.
  - rewrite SpecsFromState_lookup_target, fmap_is_Some, firstWatchable_is_Some by done.
    tauto.
Qed.

(** Every computed spec ends with the global ignores: whatever a target
    ignores on its own comes first, and the ignores made from
    [globalIgnores] follow, in order. *)
Theorem SpecsFromState_global_ignores_last state id spec :
  SpecsFromState state !! id = Some spec →
  ∃ own, Ignores spec = own ++ (ignoreOf <$> globalIgnores state).
Proof.
  destruct (decide (id = ConfigsTargetID ∧ ConfigFiles state ≠ [])) as [Hcfg|Hcfg].
  - destruct Hcfg as [-> Hne]. rewrite SpecsFromState_lookup_config by done.
    intros [= <-]. by exists [].
  - rewrite SpecsFromState_lookup_target by done.
    destruct (firstWatchable state id) as [wt|]; [|done]. intros [= <-].
    apply specForTarget_ignores_suffix.
Qed.

(** ** More about [OnChange] *)

(** With no watchable target and no config files there is nothing to
    watch: no spec is computed, and a pass that runs dispatches exactly one
    delete for every FileWatch that exists, and nothing else. *)
Theorem nothing_to_watch_deletes_all state summary :
  (∀ t, t ∈ allTargets state → asWatchable t = None) →
  ConfigFiles state = [] →
  runs state summary →
  SpecsFromState state = ∅ ∧
  ∀ a, a ∈ OnChange state summary ↔
       ∃ name, a = FileWatchDeleteAction name ∧ is_Some (FileWatches state !! name).
Proof.
  intros Hnone Hcfg Hruns.
  assert (Hempty : SpecsFromState state = ∅).
  { apply map_eq. intros id. rewrite lookup_empty.
    rewrite SpecsFromState_lookup_target by (intros [_ Hne]; done).
    apply fmap_None, eq_None_not_Some. rewrite firstWatchable_is_Some.
    intros (t & Ht & _ & Hw). rewrite (Hnone t Ht) in Hw. by destruct Hw. }
  split; [done|]. intros a. rewrite (elem_of_OnChange _ _ _ Hruns), Hempty. split.
  - intros [(targetID & spec & Hspec & _)|(name & -> & Hsome & _)].
    + by rewrite lookup_empty in Hspec.
    + by exists name.
  - intros (name & -> & Hsome). right. exists name. split_and!; [done|done|].
    intros targetID Htid. rewrite lookup_empty in Htid. by destruct Htid.
Qed.

Lemma length_bind_le {A B} (f : A → list B) (l : list A) :
  (∀ x, x ∈ l → (length (f x) ≤ 1)%nat) → (length (l ≫= f) ≤ length l)%nat.
Proof.
  induction l as [|x l IH]; intros Hf; [done|].
  rewrite bind_cons, length_app. simpl.
  specialize (Hf x (list_elem_of_here _ _)) as Hx.
  assert (length (l ≫= f) ≤ length l)%nat; [|lia].
  apply IH. intros y Hy. apply Hf. by apply list_elem_of_further.
Qed.

(** The deletes come last and once each: the dispatched actions are the
    creates and updates of the first loop, at most one per computed spec,
    followed by the deletes of the second loop, one for each of a list of
    distinct names. *)
Theorem OnChange_deletes_last state summary :
  ∃ ups stale,
    OnChange state summary = ups ++ (FileWatchDeleteAction <$> stale) ∧
    (∀ a, a ∈ ups → ¬ isDelete a) ∧
    NoDup stale ∧
    (length ups ≤ size (SpecsFromState state))%nat.
Proof.
  destruct (decide (IsLogOnly summary = false ∧ Legacy summary = true ∧
                    WatchesFiles state = true)) as [(Hlog & Hleg & Hwatch)|Hnot].
  - unfold Fswatch.OnChange. rewrite Hlog, Hleg, Hwatch. simpl.
    rewrite OnChange_ranging_eq. eexists _, _. split_and!; [done| | |].
    + intros a ([targetID spec] & Ha & _)%list_elem_of_bind.
      apply elem_of_specActions in Ha.
      destruct (FileWatches state !! watchName targetID);
        [destruct Ha as [_ ->] | subst a]; simpl; tauto.
    + apply NoDup_filter, NoDup_fst_map_to_list.
    + rewrite <-length_map_to_list. apply length_bind_le.
      intros [targetID spec] _. unfold Fswatch.specActions, Fswatch.processSpec.
      destruct (FileWatches state !! _); [case_decide|]; simpl; lia.
  - exists [], []. split_and!; [|by intros a ?%elem_of_nil|constructor|simpl; lia].
    unfold Fswatch.OnChange.
    destruct (IsLogOnly summary); [done|].
    destruct (Legacy summary); [|done].
    destruct (WatchesFiles state); [|done]. by destruct Hnot.
Qed.

Lemma in_step_silent state summary :
  runs state summary →
  (∀ targetID spec, SpecsFromState state !! targetID = Some spec →
                    ∃ existing, FileWatches state !! watchName targetID = Some existing ∧
                                fwSpec existing = spec) →
  (∀ name, is_Some (FileWatches state !! name) →
           ∃ targetID, is_Some (SpecsFromState state !! targetID) ∧
                       watchName targetID = name) →
  OnChange state summary = [].
Proof.
  intros Hruns Hspecs Hnames. apply elem_of_nil_inv. intros a.
  rewrite (elem_of_OnChange _ _ _ Hruns).
  intros [(targetID & spec & Hspec & Ha)|(name & -> & Hsome & Hnone)].
  - apply elem_of_specActions in Ha.
    destruct (Hspecs _ _ Hspec) as (existing & Hfw & Heq).
    rewrite Hfw in Ha. by destruct Ha.
  - destruct (Hnames _ Hsome) as (targetID & Htid & Heq).
    by apply (Hnone targetID).
Qed.

(** A pass that runs is silent exactly when the FileWatch objects are in
    step with the computed specs: every computed spec has a FileWatch of its
    name with that very spec, and every FileWatch has a name that some
    computed spec yields. *)
Theorem OnChange_silent_iff_in_step state summary :
  runs state summary →
  OnChange state summary = [] ↔
  (∀ targetID spec, SpecsFromState state !! targetID = Some spec →
                    ∃ existing, FileWatches state !! watchName targetID = Some existing ∧
                                fwSpec existing = spec) ∧
  (∀ name, is_Some (FileWatches state !! name) →
           ∃ targetID, is_Some (SpecsFromState state !! targetID) ∧
                       watchName targetID = name).
Proof.
  intros Hruns. split.
  - intros Hnil.
    assert (Hno : ∀ a, a ∉ OnChange state summary)
      by (intros a; rewrite Hnil; apply not_elem_of_nil).
    split.
    + intros targetID spec Hspec.
      destruct (FileWatches state !! watchName targetID) as [existing|] eqn:Hfw.
      * exists existing. split; [done|].
        destruct (decide (fwSpec existing = spec)) as [|Hne]; [done|].
        exfalso. eapply Hno, (elem_of_OnChange _ _ _ Hruns). left.
        exists targetID, spec. split; [done|].
        apply elem_of_specActions. by rewrite Hfw.
      * exfalso. eapply Hno, (elem_of_OnChange _ _ _ Hruns). left.
        exists targetID, spec. split; [done|].
        apply elem_of_specActions. by rewrite Hfw.
    + intros name Hsome.
      destruct (decide (name ∈ keptNames (map_to_list (SpecsFromState state))))
        as [Hin|Hout].
      * by apply elem_of_keptNames in Hin.
      * exfalso. apply (Hno (FileWatchDeleteAction name)).
        apply (elem_of_OnChange _ _ _ Hruns). right. exists name.
        split_and!; [done|done|]. intros targetID Htid Heq.
        apply Hout, elem_of_keptNames. eauto.
  - intros [Hspecs Hnames]. by apply in_step_silent.
Qed.

Lemma actionName_specActions state targetID spec a :
  (∀ name fw, FileWatches state !! name = Some fw → (fwNamespace fw, fwName fw) = name) →
  a ∈ specActions state (targetID, spec) → actionName a = watchName targetID.
Proof.
  intros Hkeyed Ha. apply elem_of_specActions in Ha.
  destruct (FileWatches state !! watchName targetID) as [existing|] eqn:Hfw.
  - destruct Ha as [_ ->]. simpl. by apply Hkeyed.
  - by subst a.
Qed.

Lemma NoDup_specActions_names state (specs : list (TargetID * FileWatchSpec)) :
  (∀ name fw, FileWatches state !! name = Some fw → (fwNamespace fw, fwName fw) = name) →
  NoDup specs.*1 →
  (∀ id1 id2, id1 ∈ specs.*1 → id2 ∈ specs.*1 →
              watchName id1 = watchName id2 → id1 = id2) →
  NoDup (actionName <$> (specs ≫= specActions state)).
Proof.
  intros Hkeyed. induction specs as [|[targetID spec] specs IH]; intros Hnd Hinj.
  - constructor.
  - rewrite fmap_cons in Hnd. apply NoDup_cons in Hnd as [Hnotin Hnd].
    rewrite bind_cons, fmap_app. apply NoDup_app. split_and!.
    + unfold Fswatch.specActions, Fswatch.processSpec.
      destruct (FileWatches state !! _); [case_decide|]; simpl;
        first [apply NoDup_nil_2 | apply NoDup_singleton].
    + intros name (a & -> & Ha)%list_elem_of_fmap
        (a' & Heq & ([targetID' spec'] & Ha' & Hin)%list_elem_of_bind)%list_elem_of_fmap.
      rewrite (actionName_specActions _ _ _ _ Hkeyed Ha) in Heq.
      rewrite (actionName_specActions _ _ _ _ Hkeyed Ha') in Heq.
      assert (Hin' : targetID' ∈ specs.*1).
      { apply list_elem_of_fmap. by exists (targetID', spec'). }
      apply Hnotin. rewrite (Hinj targetID targetID'); [done| | |done].
      * rewrite fmap_cons. apply list_elem_of_here.
      * rewrite fmap_cons. by apply list_elem_of_further.
    + apply IH; [done|]. intros id1 id2 H1 H2.
      apply Hinj; rewrite fmap_cons; by apply list_elem_of_further.
Qed.

(** When distinct target IDs with a computed spec have distinct sanitized
    names, and every FileWatch is stored under its own namespace and name,
    one pass dispatches at most one action about any FileWatch name: none
    is created or updated twice, and none is both written and deleted. *)
Theorem OnChange_one_action_per_name state summary :
  (∀ id1 id2, is_Some (SpecsFromState state !! id1) →
              is_Some (SpecsFromState state !! id2) →
              watchName id1 = watchName id2 → id1 = id2) →
  (∀ name fw, FileWatches state !! name = Some fw → (fwNamespace fw, fwName fw) = name) →
  NoDup (actionName <$> OnChange state summary).
Proof.
  intros Hinj Hkeyed. unfold Fswatch.OnChange.
  destruct (IsLogOnly summary || negb (Legacy summary)); [constructor|].
  destruct (negb (WatchesFiles state)); [constructor|].
  rewrite OnChange_ranging_eq, fmap_app. apply NoDup_app. split_and!.
  - apply NoDup_specActions_names; [done|apply NoDup_fst_map_to_list|].
    intros id1 id2 H1 H2. apply Hinj.
    + apply list_elem_of_fmap in H1 as ([? spec] & -> & Hin%elem_of_map_to_list).
      by exists spec.
    + apply list_elem_of_fmap in H2 as ([? spec] & -> & Hin%elem_of_map_to_list).
      by exists spec.
  - intros name (a & -> & ([targetID spec] & Ha & Hin)%list_elem_of_bind)%list_elem_of_fmap
      (a' & Heq & (name' & -> & [Hkeep _]%list_elem_of_filter)%list_elem_of_fmap)%list_elem_of_fmap.
    rewrite (actionName_specActions _ _ _ _ Hkeyed Ha) in Heq. simpl in Heq. subst name'.
    apply Hkeep, elem_of_keptNames. exists targetID. split; [|done].
    apply elem_of_map_to_list in Hin. by exists spec.
  - rewrite <-list_fmap_compose.
    assert (Hid : ∀ l : list NamespacedName, (actionName ∘ FileWatchDeleteAction) <$> l = l).
    { intros l. induction l as [|x l IHl]; [done|]. rewrite fmap_cons. by f_equal. }
    rewrite Hid. apply NoDup_filter, NoDup_fst_map_to_list.
Qed.


(** One pass is enough. Take a pass that runs on a state in which distinct
    target IDs with a computed spec have distinct sanitized names and every
    FileWatch is stored under its own namespace and name. Once every
    dispatched action has taken effect and the FileWatch objects that no
    action names are as they were, a pass over the same manifests and
    config files dispatches nothing. *)
Theorem OnChange_converges state state' summary summary' :
  runs state summary → runs state' summary' →
  SpecsFromState state' = SpecsFromState state →
  (∀ id1 id2, is_Some (SpecsFromState state !! id1) →
              is_Some (SpecsFromState state !! id2) →
              watchName id1 = watchName id2 → id1 = id2) →
  (∀ name fw, FileWatches state !! name = Some fw → (fwNamespace fw, fwName fw) = name) →
  (∀ a, a ∈ OnChange state summary → tookEffect (FileWatches state') a) →
  (∀ name, (∀ a, a ∈ OnChange state summary → actionName a ≠ name) →
           FileWatches state' !! name = FileWatches state !! name) →
  OnChange state' summary' = [].
Proof.
  intros Hruns Hruns' Hspecs Hinj Hkeyed Heff Hrest.
  apply (in_step_silent _ _ Hruns'); rewrite Hspecs.
  - intros targetID spec Hspec.
    destruct (FileWatches state !! watchName targetID) as [existing|] eqn:Hfw.
    + destruct (decide (fwSpec existing = spec)) as [Heq|Hne].
      * exists existing. split; [|done]. rewrite Hrest; [done|].
        intros a Ha Hname. apply (elem_of_OnChange _ _ _ Hruns) in Ha.
        destruct Ha as [(tid' & spec' & Hspec' & Ha)|(name & -> & Hsome & Hnone)].
        -- pose proof (actionName_specActions _ _ _ _ Hkeyed Ha) as Hn.
           rewrite Hname in Hn.
           assert (targetID = tid') as <- by (apply Hinj; eauto).
           rewrite Hspec in Hspec'. injection Hspec' as <-.
           apply elem_of_specActions in Ha. rewrite Hfw in Ha. by destruct Ha.
        -- simpl in Hname. subst name. apply (Hnone targetID); eauto.
      * assert (Ha : FileWatchUpdateAction
                       (mkFileWatch (fwNamespace existing) (fwName existing)
                          (fwAnnotations existing) spec (fwLastEventTime existing))
                     ∈ OnChange state summary).
        { apply (elem_of_OnChange _ _ _ Hruns). left. exists targetID, spec.
          split; [done|]. apply elem_of_specActions. by rewrite Hfw. }
        apply Heff in Ha. simpl in Ha. by rewrite (Hkeyed _ _ Hfw) in Ha.
    + assert (Ha : FileWatchCreateAction
                     (mkFileWatch "" (SanitizeName (TargetID_String targetID))
                        [(AnnotationTargetID, TargetID_String targetID)] spec 0)
                   ∈ OnChange state summary).
      { apply (elem_of_OnChange _ _ _ Hruns). left. exists targetID, spec.
        split; [done|]. apply elem_of_specActions. by rewrite Hfw. }
      apply Heff in Ha. exact Ha.
  - intros name [fw' Hfw'].
    destruct (decide (name ∈ keptNames (map_to_list (SpecsFromState state))))
      as [Hin|Hout]; [by apply elem_of_keptNames in Hin|].
    exfalso.
    assert (Hnone : ∀ targetID, is_Some (SpecsFromState state !! targetID) →
                                watchName targetID ≠ name).
    { intros targetID Htid Heq. apply Hout, elem_of_keptNames. eauto. }
    destruct (FileWatches state !! name) as [fw|] eqn:Hfw.
    + assert (Ha : FileWatchDeleteAction name ∈ OnChange state summary).
      { apply (elem_of_OnChange _ _ _ Hruns). right. exists name.
        split_and!; [done|by eexists; rewrite Hfw|done]. }
      apply Heff in Ha. simpl in Ha. congruence.
    + rewrite Hrest, Hfw in Hfw'; [done|].
      intros a Ha Hname. apply (elem_of_OnChange _ _ _ Hruns) in Ha.
      destruct Ha as [(tid' & spec' & Hspec' & Ha)|(name' & -> & Hsome & _)].
      * pose proof (actionName_specActions _ _ _ _ Hkeyed Ha) as Hn.
        rewrite Hname in Hn. by apply (Hnone tid'); [eexists|].
      * simpl in Hname. subst name'. rewrite Hfw in Hsome. by destruct Hsome.
Qed.

End manifest_subscriber.

End FswatchFacts.

(* ===================================================================== *)
(** * Facts about the trigger-mode toggle                                 *)
(* ===================================================================== *)

Module TriggerModeToggleFacts.
Import TriggerModeToggle.

Section toggle.

Context {TriggerMode : Type} `{EqDecision TriggerMode}.
Variable TriggerModeAuto : TriggerMode.
Variable TriggerModeManualWithAutoInit : TriggerMode.
Variable TriggerModeManual : TriggerMode.

Local Abbreviation isManualTriggerMode :=
  (TriggerModeToggle.isManualTriggerMode TriggerModeManualWithAutoInit TriggerModeManual).
Local Abbreviation desiredMode :=
  (TriggerModeToggle.desiredMode TriggerModeAuto TriggerModeManualWithAutoInit
     TriggerModeManual).
Local Abbreviation OverviewTableTriggerModeToggle :=
  (TriggerModeToggle.OverviewTableTriggerModeToggle TriggerModeAuto
     TriggerModeManualWithAutoInit TriggerModeManual).
Local Abbreviation clicked :=
  (TriggerModeToggle.clicked TriggerModeAuto TriggerModeManualWithAutoInit
     TriggerModeManual).

Lemma isManual_desiredMode props :
  TriggerModeAuto ≠ TriggerModeManualWithAutoInit →
  TriggerModeAuto ≠ TriggerModeManual →
  isManualTriggerMode (clicked props) = negb (isManualTriggerMode props).
Proof.
  intros H1 H2.
  unfold TriggerModeToggle.clicked, TriggerModeToggle.OverviewTableTriggerModeToggle,
    TriggerModeToggle.onClick, TriggerModeToggle.toggleTriggerMode,
    TriggerModeToggle.desiredMode. simpl.
  destruct (isManualTriggerMode props) eqn:Hm;
    unfold TriggerModeToggle.isManualTriggerMode; simpl.
  - by rewrite !bool_decide_eq_false_2.
  - rewrite (bool_decide_eq_true_2 (TriggerModeManual = TriggerModeManual)) by done.
    by rewrite orb_true_r.
Qed.

(** A click asks for the other kind of mode. When [TriggerModeAuto] is
    neither of the two manual members, the request posted by a click names
    exactly the resource of the toggle, and once the requested mode is
    applied the toggle is manual exactly when it was not before, so its
    title and its class both change. *)
Theorem click_flips_the_toggle props :
  TriggerModeAuto ≠ TriggerModeManualWithAutoInit →
  TriggerModeAuto ≠ TriggerModeManual →
  manifest_names (click (OverviewTableTriggerModeToggle props)) = [resourceName props] ∧
  isManualTriggerMode (clicked props) = negb (isManualTriggerMode props) ∧
  title (OverviewTableTriggerModeToggle (clicked props))
  ≠ title (OverviewTableTriggerModeToggle props) ∧
  className (OverviewTableTriggerModeToggle (clicked props))
  ≠ className (OverviewTableTriggerModeToggle props).
Proof.
  intros H1 H2. split; [done|].
  pose proof (isManual_desiredMode props H1 H2) as Hflip.
  split; [done|].
  unfold TriggerModeToggle.OverviewTableTriggerModeToggle. cbn [title className].
  rewrite Hflip. by destruct (isManualTriggerMode props).
Qed.

(** Two clicks bring back the mode exactly when it is [TriggerModeAuto] or
    [TriggerModeManual]: a click never asks for any other mode, so
    [TriggerModeManualWithAutoInit] becomes [TriggerModeManual] after two
    clicks. *)
Theorem two_clicks_restore_only_auto_and_manual props :
  TriggerModeAuto ≠ TriggerModeManualWithAutoInit →
  TriggerModeAuto ≠ TriggerModeManual →
  (triggerMode (clicked (clicked props)) = triggerMode props ↔
   triggerMode props = TriggerModeAuto ∨ triggerMode props = TriggerModeManual) ∧
  (triggerMode props = TriggerModeManualWithAutoInit →
   triggerMode (clicked (clicked props)) = TriggerModeManual).
Proof.
  intros H1 H2.
  assert (Htwice : triggerMode (clicked (clicked props))
                   = if isManualTriggerMode props then TriggerModeManual
                     else TriggerModeAuto).
  { change (triggerMode (clicked (clicked props))) with (desiredMode (clicked props)).
    unfold TriggerModeToggle.desiredMode at 1.
    rewrite (isManual_desiredMode props H1 H2).
    by destruct (isManualTriggerMode props). }
  rewrite Htwice. unfold TriggerModeToggle.isManualTriggerMode.
  split.
  - split.
    + destruct (bool_decide _ || bool_decide _); intros <-; auto.
    + intros [Heq|Heq]; rewrite Heq.
      * by rewrite !bool_decide_eq_false_2.
      * rewrite (bool_decide_eq_true_2 (TriggerModeManual = TriggerModeManual)) by done.
        by rewrite orb_true_r.
  - intros ->. by rewrite bool_decide_eq_true_2.
Qed.

End toggle.

End TriggerModeToggleFacts.

(* ===================================================================== *)
(** * Facts about the Cmd reconciler                                      *)
(* ===================================================================== *)

Module CmdFacts.
Import Cmd.

(** ** The supervisor's table *)












Lemma isRunning_true p : isRunning p = true ↔ pState p = PRunning.
Proof. unfold isRunning. destruct (pState p); naive_solver. Qed.















(** ** Traces *)












(** ** What one move does *)

Lemma instance_ensureProc cmd opr : instance (ensureProc cmd opr) = instOf opr.
Proof. by destruct opr. Qed.

Lemma watermark_ensureProc_Some cmd pr : ensureProc cmd (Some pr) = pr.
Proof. done. Qed.






Lemma watermark_onInstance pid f pr : watermark (onInstance pid f pr) = watermark pr.
Proof. unfold onInstance. by repeat case_match. Qed.








(** ** The invariants *)













(** ** Triggers and the watermark *)

Lemma foldl_later_Some acc evs t src :
  foldl later acc evs = Some (t, src) →
  (acc = Some (t, src) ∨ (t, src) ∈ evs) ∧
  (∀ ev, ev ∈ evs → ev.1 ≤ t) ∧
  (∀ t0 s0, acc = Some (t0, s0) → t0 ≤ t).
Proof.
  revert acc. induction evs as [|ev evs IH]; intros acc; simpl.
  - intros ->. split_and!; [by left| |].
    + intros ? Hin. by apply elem_of_nil in Hin.
    + intros ?? [= -> ->]. lia.
  - intros Hf. apply IH in Hf as (H1 & H2 & H3).
    assert (Hle : ∀ ev', ev' ∈ ev :: evs → ev.1 ≤ t → ev'.1 ≤ t).
    { intros ev' [->|Hin]%elem_of_cons ?; auto. }
    unfold later in *. destruct acc as [[t0 s0]|].
    + destruct (Z.ltb_spec t0 ev.1) as [Hlt|Hge].
      * destruct ev as [te se]. specialize (H3 te se eq_refl). simpl in *.
        split_and!.
        -- right. destruct H1 as [[= -> ->]|?]; [by left | by right].
        -- intros ev' Hin. by apply Hle.
        -- intros ?? [= -> ->]. lia.
      * specialize (H3 t0 s0 eq_refl). split_and!.
        -- destruct H1 as [?|?]; [by left | right; by right].
        -- intros ev' Hin. apply Hle; [done|lia].
        -- intros ?? [= -> ->]. lia.
    + destruct ev as [te se]. specialize (H3 te se eq_refl). simpl in *.
      split_and!.
      * right. destruct H1 as [[= -> ->]|?]; [by left | by right].
      * intros ev' Hin. by apply Hle.
      * intros ?? [=].
Qed.

Lemma foldl_later_None acc evs :
  foldl later acc evs = None → acc = None ∧ evs = [].
Proof.
  revert acc. induction evs as [|ev evs IH]; intros acc; simpl; [done|].
  intros Hf. apply IH in Hf as [Hf _]. unfold later in Hf.
  destruct acc as [[t0 s0]|]; [destruct (t0 <? ev.1)|]; discriminate.
Qed.

Lemma latest_Some evs t src :
  latest evs = Some (t, src) → (t, src) ∈ evs ∧ ∀ ev, ev ∈ evs → ev.1 ≤ t.
Proof.
  intros (H1 & H2 & _)%foldl_later_Some. split; [|done].
  by destruct H1 as [[=]|?].
Qed.

Lemma latest_None evs : latest evs = None → evs = [].
Proof. by intros [_ ?]%foldl_later_None. Qed.


Lemma fired_None wm evs :
  fired wm evs = None ↔ ∀ ev, ev ∈ evs → ev.1 ≤ wm.
Proof.
  unfold fired. destruct (latest evs) as [[t' src']|] eqn:Hl.
  - apply latest_Some in Hl as [Hin Hmax].
    destruct (Z.ltb_spec wm t'); split; try done.
    + intros Hall. specialize (Hall _ Hin). simpl in Hall. lia.
    + intros _ ev Hev. specialize (Hmax _ Hev). lia.
  - apply latest_None in Hl as ->. split; [|done].
    intros _ ev Hin. by apply elem_of_nil in Hin.
Qed.




Lemma advance_quiet wm evs :
  (∀ ev, ev ∈ evs → ev.1 ≤ wm) → advance wm evs = wm.
Proof.
  intros Hall. unfold advance. destruct (latest evs) as [[t src]|] eqn:Hl; [|done].
  apply latest_Some in Hl as [Hin _]. specialize (Hall _ Hin). simpl in Hall. lia.
Qed.





(** ** Decisions *)





Lemma decision_present w name opr cmd :
  Cmds w !! name = Some cmd →
  decision w name opr =
  match resolveDisable w (DisableSourceOf (Spec cmd)) with
  | DisableStateDisabled => DStop
  | _ => enabledDecision w name (Spec cmd) (instance (ensureProc cmd opr))
           (watermark (ensureProc cmd opr))
  end.
Proof. unfold decision. by intros ->. Qed.


Lemma decision_enabled w name opr cmd :
  Cmds w !! name = Some cmd →
  resolveDisable w (DisableSourceOf (Spec cmd)) ≠ DisableStateDisabled →
  decision w name opr =
  enabledDecision w name (Spec cmd) (instance (ensureProc cmd opr))
    (watermark (ensureProc cmd opr)).
Proof.
  intros Hcmd Hen. rewrite (decision_present _ _ _ _ Hcmd).
  by destruct (resolveDisable w _).
Qed.


(** ** A pass, decision by decision *)


Lemma reconcile_DNoop name s cmd :
  Cmds (world s) !! name = Some cmd →
  decision (world s) name (procs s !! name) = DNoop →
  reconcile name s =
  mkState (world s)
    (<[name := mkProc (instOf (procs s !! name))
                 (watermark (ensureProc cmd (procs s !! name)))
                 (mkCmdStatus (phase (status (ensureProc cmd (procs s !! name))))
                    (Ready (status (ensureProc cmd (procs s !! name))))
                    (resolveDisable (world s) (DisableSourceOf (Spec cmd))))]>
       (procs s))
    (sup s).
Proof. intros Hcmd Hdec. unfold reconcile. by rewrite Hcmd, Hdec, instance_ensureProc. Qed.





#[local] Arguments startedStatus : simpl never.
#[local] Arguments enabledDecision : simpl never.


(** ** C1: at most one live instance *)


(** ** C2: triggers and the watermark *)




Lemma click_click t btn : click t (click t btn) = click t btn.
Proof. done. Qed.






(** ** Starts *)








(** ** C3: disable and enable *)


(** ** C4: StartOn gating of a fresh command *)






(** ** C5: declarative edits *)

(** With the execution-relevant fields as at the start of the instance and
    no counted event newer than the watermark, nothing is decided. *)
Lemma enabledDecision_quiet w name spec inst wm :
  startedWith inst = execSpec spec →
  (∀ ev, ev ∈ triggerEvents w spec → ev.1 ≤ wm) →
  enabledDecision w name spec (Some inst) wm = DNoop.
Proof.
  intros He Hq. unfold enabledDecision. case_bool_decide; [done|].
  rewrite bool_decide_eq_false_2 by (rewrite He; tauto).
  assert (fired wm (startEvents w spec) = None) as ->.
  { apply fired_None. intros ev Hin. apply Hq. unfold triggerEvents.
    rewrite elem_of_app. auto. }
  assert (fired wm (restartEvents w spec) = None) as ->.
  { apply fired_None. intros ev Hin. apply Hq. unfold triggerEvents.
    rewrite elem_of_app. auto. }
  done.
Qed.

(** A pass that finds nothing to do. *)
Lemma quiet_pass name s cmd pr inst :
  Cmds (world s) !! name = Some cmd →
  procs s !! name = Some pr →
  instance pr = Some inst →
  resolveDisable (world s) (DisableSourceOf (Spec cmd)) ≠ DisableStateDisabled →
  startedWith inst = execSpec (Spec cmd) →
  (∀ ev, ev ∈ triggerEvents (world s) (Spec cmd) → ev.1 ≤ watermark pr) →
  sup (reconcile name s) = sup s ∧
  ∃ pr', procs (reconcile name s) !! name = Some pr' ∧
         instance pr' = Some inst ∧ watermark pr' = watermark pr ∧
         phase (status pr') = phase (status pr).
Proof.
  intros Hcmd Hpr Hinst Hen He Hq.
  assert (Hdec : decision (world s) name (procs s !! name) = DNoop).
  { rewrite (decision_enabled _ _ _ _ Hcmd Hen), Hpr. simpl. rewrite Hinst.
    by apply enabledDecision_quiet. }
  rewrite (reconcile_DNoop _ _ _ Hcmd Hdec). simpl. split; [done|].
  rewrite lookup_insert_eq, Hpr. simpl. eauto.
Qed.


(** ** C6: the inputs of the button that was clicked *)







(** ** C7: invalid readiness probe *)








(** ** C8: a build in flight *)




(** ** C9: natural exit *)

Lemma settled_passes name inst ws : ∀ s pr,
  procs s !! name = Some pr → instance pr = Some inst →
  Forall (settled name inst (watermark pr)) ws →
  sup (passes name ws s) = sup s ∧
  ∃ pr', procs (passes name ws s) !! name = Some pr' ∧ instance pr' = Some inst ∧
         watermark pr' = watermark pr ∧ phase (status pr') = phase (status pr).
Proof.
  induction ws as [|w ws IH] using rev_ind; intros s pr Hpr Hinst Hall.
  - split; [done|]. eauto.
  - apply Forall_app in Hall as [Hall Hw]. rewrite Forall_singleton in Hw.
    destruct (IH s pr Hpr Hinst Hall) as (Hsup & pr0 & Hpr0 & Hi0 & Hw0 & Hph0).
    unfold passes in *. rewrite foldl_app. simpl.
    destruct Hw as (cmd & Hcmd & Hen & He & Hq).
    destruct (quiet_pass name
                (withWorld w (foldl (λ s w, reconcile name (withWorld w s)) s ws))
                cmd pr0 inst)
      as (Hsup' & pr' & Hpr' & Hi' & Hw' & Hph'); try done.
    { simpl. by rewrite Hw0. }
    simpl in Hsup'. split; [congruence|]. exists pr'. split_and!; congruence.
Qed.

(** C9. When the running process of a command exits on its own with exit
    code N, the status goes from Running to Terminated with exit code N and
    the line "cmd <args> exited with code N" is logged. The exit is not
    retried: over any passes during which no start or restart condition
    arises (the command is present and not disabled, its execution-relevant
    fields are unchanged and no counted trigger event is newer than the
    watermark), no process is created and the status stays Terminated with
    exit code N. *)
Theorem C9_exit_is_recorded_not_retried s name pr inst p t0 code :
  procs s !! name = Some pr →
  instance pr = Some inst →
  phase (status pr) = Running (handle inst) t0 →
  table (sup s) !! handle inst = Some p →
  owner p = name →
  pState p = PRunning →
  (∃ pr1 p1, procs (processExit (handle inst) code s) !! name = Some pr1 ∧
             phase (status pr1) = Terminated (handle inst) code "exited" ∧
             table (sup (processExit (handle inst) code s)) !! handle inst = Some p1 ∧
             pState p1 = PExited code) ∧
  ("cmd " +:+ joinArgs (pArgs p) +:+ " exited with code " +:+ pretty code)
    ∈ logs (sup (processExit (handle inst) code s)) ∧
  (∀ ws, Forall (settled name inst (watermark pr)) ws →
         sup (passes name ws (processExit (handle inst) code s))
         = sup (processExit (handle inst) code s) ∧
         ∃ pr', procs (passes name ws (processExit (handle inst) code s)) !! name
                = Some pr' ∧
                phase (status pr') = Terminated (handle inst) code "exited").
Proof.
  intros Hpr Hinst Hph Hp Ho Hrun.
  assert (Hs1 : processExit (handle inst) code s =
                mkState (world s)
                  (<[name := mkProc (Some inst) (watermark pr)
                               (mkCmdStatus (Terminated (handle inst) code "exited")
                                  false (DisableStatus (status pr)))]> (procs s))
                  (mkSupervisor
                     (<[handle inst := setProbing false (setState (PExited code) p)]>
                        (table (sup s)))
                     (EvExit (handle inst) code :: trace (sup s))
                     (("cmd " +:+ joinArgs (pArgs p) +:+ " exited with code "
                         +:+ pretty code) :: logs (sup s)))).
  { unfold processExit. rewrite Hp.
    assert (isRunning p = true) as -> by (by apply isRunning_true).
    f_equal. rewrite Ho. apply map_eq. intros n.
    rewrite lookup_alter, lookup_insert. case_decide; [|done]. subst n.
    rewrite Hpr. simpl. unfold onInstance. rewrite Hinst.
    by rewrite bool_decide_eq_true_2. }
  rewrite Hs1. split_and!.
  - eexists _, _. simpl. rewrite lookup_insert_eq.
    rewrite list_lookup_insert_eq by eauto using lookup_lt_Some. done.
  - simpl. by left.
  - intros ws Hall.
    destruct (settled_passes name inst ws
                (mkState (world s)
                   (<[name := mkProc (Some inst) (watermark pr)
                                (mkCmdStatus (Terminated (handle inst) code "exited")
                                   false (DisableStatus (status pr)))]> (procs s))
                   (mkSupervisor
                      (<[handle inst := setProbing false (setState (PExited code) p)]>
                         (table (sup s)))
                      (EvExit (handle inst) code :: trace (sup s))
                      (("cmd " +:+ joinArgs (pArgs p) +:+ " exited with code "
                          +:+ pretty code) :: logs (sup s))))
                (mkProc (Some inst) (watermark pr)
                   (mkCmdStatus (Terminated (handle inst) code "exited")
                      false (DisableStatus (status pr)))))
      as (Hsup & pr' & Hpr' & _ & _ & Hph'); simpl; try done.
    { by rewrite lookup_insert_eq. }
    split; [done|]. eauto.
Qed.

End CmdFacts.

(* ===================================================================== *)
(** * The Cmd scenarios, checked *)
(* ===================================================================== *)

Module Scenarios.
Import Cmd CmdTests CmdFacts.




Ltac compute_eq := vm_compute; reflexivity.














(** C9, witness: [TestFailure], the process of "foo" exits with code 5. *)
Lemma C9_witness :
  ("cmd true exited with code 5" ∈ logs (sup (processExit 0 5 sTrue))) ∧
  ∃ pr1 p1, procs (processExit 0 5 sTrue) !! "foo" = Some pr1 ∧
            phase (status pr1) = Terminated 0 5 "exited" ∧
            table (sup (processExit 0 5 sTrue)) !! 0%nat = Some p1 ∧
            pState p1 = PExited 5.
Proof.
  assert (H1 : procs sTrue !! "foo"
               = Some (mkProc (Some (mkInstance 0 (execSpec (plain ["true"] ".")))) T0
                         (mkCmdStatus (Running 0 T0) true DisableStateEnabled)))
    by compute_eq.
  assert (H4 : table (sup sTrue) !! 0%nat
               = Some (mkProcess "foo" ["true"] "." [] PRunning false true 0))
    by compute_eq.
  destruct (C9_exit_is_recorded_not_retried sTrue "foo" _ _ _ T0 5
              H1 eq_refl eq_refl H4 eq_refl eq_refl) as (Hst & Hlog & _).
  split; [exact Hlog | exact Hst].
Defined.

(** ** The tests of the controller, replayed on the model *)

(** [TestUpdate]: the log lines and the one remaining process. *)
Example test_Update :
  processStates sFalse = [PCanceled; PRunning] ∧
  logs (sup sFalse) = ["Starting cmd false"; "cmd true canceled"; "Starting cmd true"].
Proof. split; compute_eq. Qed.

(** [TestStartOnRunningProcess] *)
Example test_StartOnRunningProcess :
  phaseOf "testcmd" sFirstClick = Some (Running 0 (T0 + second)) ∧
  phaseOf "testcmd" sSecondClick = Some (Running 1 (T0 + 2 * second)) ∧
  processStates sSecondClick = [PCanceled; PRunning].
Proof. split_and!; compute_eq. Qed.

(** [TestStartOnPreviousTerminatedProcess] *)
Example test_StartOnPreviousTerminatedProcess :
  phaseOf "testcmd" sExited = Some (Terminated 0 1 "exited") ∧
  phaseOf "testcmd" sClickedAgain = Some (Running 1 (T0 + second)) ∧
  processStates sClickedAgain = [PExited 1; PRunning].
Proof. split_and!; compute_eq. Qed.

(** [TestSelfModifyingCmd] *)
Example test_SelfModifyingCmd :
  phaseOf "testcmd" sSelf1 = Some (Waiting waitingOnStartOnReason) ∧
  phaseOf "testcmd" sSelf2 = Some (Running 0 (T0 + 2 * second)) ∧
  phaseOf "testcmd" sSelf3 = Some (Waiting waitingOnStartOnReason) ∧
  processStates sSelf3 = [PCanceled] ∧
  phaseOf "testcmd" sSelf4 = Some (Running 1 (T0 + 3 * second)) ∧
  (pArgs <$> table (sup sSelf4)) = [["myserver"]; ["yourserver"]].
Proof. split_and!; compute_eq. Qed.

(** [TestDependencyChangesDoNotCauseRestart] *)
Example test_DependencyChangesDoNotCauseRestart :
  phaseOf "testcmd" sServer = Some (Running 0 (T0 + second)) ∧
  phaseOf "testcmd"
    (reconcile "testcmd"
       (withWorld (editSpec "testcmd" specRewired (world sNewSources)) sNewSources))
  = Some (Running 0 (T0 + second)).
Proof. split; compute_eq. Qed.

(** [TestDisableCmd] and [TestReenable] *)
Example test_Disable_Reenable :
  phaseOf "cmd-1" sEnabled = Some (Running 0 T0) ∧
  (DisableStatus ∘ status) <$> procs sEnabled !! "cmd-1" = Some DisableStateEnabled ∧
  (DisableStatus ∘ status) <$> procs (reconcile "cmd-1" sDisabled) !! "cmd-1"
  = Some DisableStateDisabled ∧
  processStates (reconcile "cmd-1" sDisabled) = [PCanceled] ∧
  processStates sBornDisabled = [] ∧
  (DisableStatus ∘ status) <$> procs sBornDisabled !! "cmd-1"
  = Some DisableStateDisabled ∧
  phaseOf "cmd-1" sReenabled = Some (Running 0 T0) ∧
  (DisableStatus ∘ status) <$> procs sReenabled !! "cmd-1" = Some DisableStateEnabled.
Proof. split_and!; compute_eq. Qed.

(** [TestDisposeOrphans] *)
Example test_DisposeOrphans :
  procs sOrphan = ∅ ∧ processStates sOrphan = [PCanceled].
Proof. split; compute_eq. Qed.

(** [TestCmdUsesInputsFromButtonOnStart] *)
Example test_CmdUsesInputsFromButtonOnStart :
  envAfterClick b1Inputs = Some ["foo=bar"; "baz=wait what comes next"].
Proof. compute_eq. Qed.

(** [TestBoolInput] *)
Example test_BoolInput :
  envAfterClick (oneInput "dry_run" (BoolInput None None) (BoolValue true))
  = Some ["dry_run=true"] ∧
  envAfterClick (oneInput "dry_run" (BoolInput (Some "custom value") None)
                   (BoolValue true))
  = Some ["dry_run=custom value"] ∧
  envAfterClick (oneInput "dry_run" (BoolInput None None) (BoolValue false))
  = Some ["dry_run=false"] ∧
  envAfterClick (oneInput "dry_run" (BoolInput None (Some "ooh la la"))
                   (BoolValue false))
  = Some ["dry_run=ooh la la"] ∧
  envAfterClick (oneInput "dry_run" (BoolInput None (Some EmptyString))
                   (BoolValue false))
  = Some ["dry_run="].
Proof. split_and!; compute_eq. Qed.

(** [TestHiddenInput] *)
Example test_HiddenInput :
  envAfterClick (oneInput "foo" (HiddenInput "afds") (HiddenValue "afds"))
  = Some ["foo=afds"].
Proof. compute_eq. Qed.

(** [TestChoiceInput] *)
Example test_ChoiceInput :
  envAfterClick (oneInput "dry_run" (ChoiceInput ["choice1"; "choice2"])
                   (ChoiceValue EmptyString))
  = Some ["dry_run=choice1"] ∧
  envAfterClick (oneInput "dry_run" (ChoiceInput ["choice1"; "choice2"])
                   (ChoiceValue "not in Choices"))
  = Some ["dry_run=choice1"] ∧
  envAfterClick (oneInput "dry_run" (ChoiceInput ["choice1"; "choice2"])
                   (ChoiceValue "choice1"))
  = Some ["dry_run=choice1"] ∧
  envAfterClick (oneInput "dry_run" (ChoiceInput ["choice1"; "choice2"])
                   (ChoiceValue "choice2"))
  = Some ["dry_run=choice2"].
Proof. split_and!; compute_eq. Qed.

End Scenarios.

(* ===================================================================== *)
(** * The manifest subscriber scenarios, checked *)
(* ===================================================================== *)

Module FswatchScenarios.
Import Fswatch FswatchTests FswatchFacts.

(** C10, witness: with the guards passed, the stale FileWatch is deleted. *)
Lemma C10_witness :
  runs stWatching legacy ∧
  FileWatchDeleteAction ("", "stale") ∈ onChange stWatching legacy.
Proof.
  assert (Hruns : runs stWatching legacy) by done.
  split; [exact Hruns|].
  destruct (C10_OnChange_dispatch (TargetID := string) id id id id isEmpty
              "configs:singleton" "tilt.dev/target-id" stWatching legacy)
    as (Hrun & _).
  destruct (Hrun Hruns) as (_ & _ & Hdel). apply Hdel. split.
  - by eexists.
  - intros targetID [spec Hspec].
    change (SpecsFromState id id isEmpty "configs:singleton" stWatching)
      with (∅ : gmap string FileWatchSpec) in Hspec.
    by rewrite lookup_empty in Hspec.
Defined.

(** C10, counterexample: the FileWatch "stale" exists and no computed spec
    yields its name, yet no delete action is dispatched when the engine
    mode does not watch files, or when the summary is not a legacy one. *)
Lemma C10_counterexample :
  is_Some (FileWatches stNotWatching !! ("", "stale")) ∧
  specsFromState stNotWatching = ∅ ∧
  (FileWatchDeleteAction ("", "stale") ∉ onChange stNotWatching legacy) ∧
  onChange stNotWatching legacy = [] ∧
  (FileWatchDeleteAction ("", "stale") ∉ onChange stWatching notLegacy).
Proof.
  split_and!.
  - by eexists.
  - done.
  - intros Hin. by apply elem_of_nil in Hin.
  - done.
  - intros Hin. by apply elem_of_nil in Hin.
Qed.

Example OnChange_creates_and_deletes :
  onChange stManifest legacy =
  [FileWatchCreateAction
     (mkFileWatch "" "image:foo" [("tilt.dev/target-id", "image:foo")]
        (mkFileWatchSpec ["/src/foo"]
           [mkIgnoreDef "/src" ["*.tmp"]; mkIgnoreDef "/src/foo/node_modules" [];
            mkIgnoreDef "/out/ref.txt" ["/out/ref.txt"]])
        0);
   FileWatchDeleteAction ("", "stale")].
Proof. vm_compute. reflexivity. Qed.

End FswatchScenarios.

(* ===================================================================== *)
(** * Further scenarios                                                   *)
(* ===================================================================== *)

Module MoreScenarios.
Import Fswatch FswatchTests FswatchFacts TriggerModeToggle TriggerModeToggleFacts.

(** The spec computed for "image:foo" ends with the ignore made for the
    output file of the custom build. *)
Lemma global_ignores_last_witness :
  specsFromState stManifest !! "image:foo"
  = Some (mkFileWatchSpec ["/src/foo"]
            [mkIgnoreDef "/src" ["*.tmp"]; mkIgnoreDef "/src/foo/node_modules" [];
             mkIgnoreDef "/out/ref.txt" ["/out/ref.txt"]]) ∧
  ∃ own,
    [mkIgnoreDef "/src" ["*.tmp"]; mkIgnoreDef "/src/foo/node_modules" [];
     mkIgnoreDef "/out/ref.txt" ["/out/ref.txt"]]
    = own ++ (ignoreOf <$> globalIgnores id id isEmpty stManifest).
Proof.
  assert (Hspec : specsFromState stManifest !! "image:foo"
                  = Some (mkFileWatchSpec ["/src/foo"]
                            [mkIgnoreDef "/src" ["*.tmp"];
                             mkIgnoreDef "/src/foo/node_modules" [];
                             mkIgnoreDef "/out/ref.txt" ["/out/ref.txt"]]))
    by (vm_compute; reflexivity).
  split; [exact Hspec|].
  exact (SpecsFromState_global_ignores_last id id isEmpty "configs:singleton"
           stManifest "image:foo" _ Hspec).
Defined.

(** Without manifests and config files the stale FileWatch is deleted and
    nothing else happens. *)
Lemma nothing_to_watch_witness :
  ConfigFiles stWatching = [] ∧
  runs stWatching legacy ∧
  specsFromState stWatching = ∅ ∧
  ∀ a, a ∈ onChange stWatching legacy ↔
       ∃ name, a = FileWatchDeleteAction name ∧ is_Some (FileWatches stWatching !! name).
Proof.
  assert (Hruns : runs stWatching legacy) by done.
  split; [done|]. split; [exact Hruns|].
  apply (nothing_to_watch_deletes_all (TargetID := string) id id id id isEmpty
           "configs:singleton" "tilt.dev/target-id" stWatching legacy);
    [|done|exact Hruns].
  intros t Ht. by apply elem_of_nil in Ht.
Defined.

(** The state in step is left alone. *)
Lemma silent_in_step_witness :
  runs stInStep legacy ∧
  onChange stInStep legacy = [] ∧
  ∀ name, is_Some (FileWatches stInStep !! name) →
          ∃ targetID, is_Some (specsFromState stInStep !! targetID) ∧
                      watchName id id targetID = name.
Proof.
  assert (Hruns : runs stInStep legacy) by done.
  assert (Hnil : onChange stInStep legacy = []) by (vm_compute; reflexivity).
  split; [exact Hruns|]. split; [exact Hnil|].
  destruct (OnChange_silent_iff_in_step (TargetID := string) id id id id isEmpty
              "configs:singleton" "tilt.dev/target-id" stInStep legacy Hruns)
    as [Hto _].
  exact (proj2 (Hto Hnil)).
Defined.

(** In the state with one manifest no name gets two actions. *)
Lemma one_action_per_name_witness :
  NoDup (actionName <$> onChange stManifest legacy).
Proof.
  apply (OnChange_one_action_per_name (TargetID := string) id id id id isEmpty
           "configs:singleton" "tilt.dev/target-id" stManifest legacy).
  - intros id1 id2 _ _ Heq. by injection Heq.
  - intros name fw Hfw. unfold stManifest in Hfw. cbn [FileWatches] in Hfw.
    apply lookup_singleton_Some in Hfw as [<- <-]. done.
Defined.

(** After the create of "image:foo" and the delete of "stale" have taken
    effect, the next pass is silent. *)
Lemma converges_witness :
  runs stManifest legacy ∧ runs stManifestDone legacy ∧
  onChange stManifest legacy
  = [FileWatchCreateAction fooWatch; FileWatchDeleteAction ("", "stale")] ∧
  onChange stManifestDone legacy = [].
Proof.
  assert (Hruns : runs stManifest legacy) by done.
  assert (Hruns' : runs stManifestDone legacy) by done.
  assert (Hacts : onChange stManifest legacy
                  = [FileWatchCreateAction fooWatch; FileWatchDeleteAction ("", "stale")])
    by (vm_compute; reflexivity).
  split_and!; [exact Hruns | exact Hruns' | exact Hacts |].
  apply (OnChange_converges (TargetID := string) id id id id isEmpty
           "configs:singleton" "tilt.dev/target-id" stManifest stManifestDone
           legacy legacy Hruns Hruns').
  - vm_compute. reflexivity.
  - intros id1 id2 _ _ Heq. by injection Heq.
  - intros name fw Hfw. unfold stManifest in Hfw. cbn [FileWatches] in Hfw.
    apply lookup_singleton_Some in Hfw as [<- <-]. done.
  - intros a Ha. fold onChange in Ha. rewrite Hacts in Ha.
    apply elem_of_cons in Ha as [->|Ha].
    + exists fooWatch. split; [vm_compute; reflexivity | done].
    + apply list_elem_of_singleton in Ha as ->. vm_compute. reflexivity.
  - intros name Hname. fold onChange in Hname. rewrite Hacts in Hname.
    assert (H1 : name ≠ ("", "image:foo")).
    { intros ->. by apply (Hname (FileWatchCreateAction fooWatch));
        [apply list_elem_of_here|]. }
    assert (H2 : name ≠ ("", "stale")).
    { intros ->. by apply (Hname (FileWatchDeleteAction ("", "stale")));
        [apply list_elem_of_further, list_elem_of_here|]. }
    unfold stManifest, stManifestDone. cbn [FileWatches].
    by rewrite !lookup_singleton_ne.
Defined.

(** The toggle of a resource in [TriggerModeManualWithAutoInit], with the
    enum numbered from zero. *)
Lemma click_flips_witness :
  manifest_names (click (toggleOf (mkProps "foo" 1%nat))) = ["foo"] ∧
  title (toggleOf (clicked 0%nat 1%nat 2%nat (mkProps "foo" 1%nat)))
  ≠ title (toggleOf (mkProps "foo" 1%nat)).
Proof.
  destruct (click_flips_the_toggle 0%nat 1%nat 2%nat (mkProps "foo" 1%nat))
    as (Hnames & _ & Htitle & _); [lia|lia|].
  split; [exact Hnames | exact Htitle].
Defined.

Lemma two_clicks_witness :
  triggerMode (clicked 0%nat 1%nat 2%nat (clicked 0%nat 1%nat 2%nat (mkProps "foo" 1%nat)))
  = 2%nat.
Proof.
  destruct (two_clicks_restore_only_auto_and_manual 0%nat 1%nat 2%nat
              (mkProps "foo" 1%nat)) as (_ & Hlost); [lia|lia|].
  by apply Hlost.
Defined.

End MoreScenarios.
